(** * Train reservation system: a shallow embedding of
      [train_reservation_system.py] and the properties of its
      booking / cancellation state machine.

    Python objects are mutable and shared: a [Ticket] keeps a reference to
    its [Train], and the directory [ReservationSystem.trains] keeps
    references too.  Train objects therefore live in a heap (a list indexed
    by address) and references are addresses.  Tickets are reached only
    through the dictionary [ReservationSystem.tickets], so that dictionary
    is their store.  The calls to [input()] become arguments of the
    operations, what is printed becomes the [Output] they return. *)

From Stdlib Require Import ZArith String List Lia DecimalString DecimalZ.
From stdpp Require Import gmap strings list fin_maps.

Local Open Scope string_scope.
Local Open Scope list_scope.
Local Open Scope Z_scope.

(** ** Integers as decimal strings: Python's [str] and [int] *)

Definition str (z : Z) : string := NilZero.string_of_int (Z.to_int z).

Definition int (s : string) : option Z :=
  option_map Z.of_int (NilZero.int_of_string s).

(** [len(l)] of a Python list. *)
Definition len {A : Type} (l : list A) : Z := Z.of_nat (length l).

(** ** Data model *)

(** A passenger is the dictionary [{"name": name, "age": age}]; both
    entries are the strings typed in. *)
Record Passenger : Type := mkPassenger {
  p_name : string;
  p_age : string
}.

Record Train : Type := mkTrain {
  train_no : string;
  name : string;
  source : string;
  destination : string;
  total_seats : Z;
  available_seats : Z;
  waiting_list : list string
}.

(** The three strings ever stored in [Ticket.status]. *)
Inductive Status : Type := Confirmed | Waiting | Cancelled.

Record Ticket : Type := mkTicket {
  pnr : string;
  train : nat;                      (* reference to a Train object *)
  passengers : list Passenger;
  status : Status;
  booking_date : Z
}.

#[global] Instance Passenger_eq_dec : EqDecision Passenger.
Proof. solve_decision. Defined.
#[global] Instance Status_eq_dec : EqDecision Status.
Proof. solve_decision. Defined.
#[global] Instance Ticket_eq_dec : EqDecision Ticket.
Proof. solve_decision. Defined.

(** The state of the process: the Train objects, the class attribute
    [Ticket.pnr_counter], and the two dictionaries of the
    [ReservationSystem] instance. *)
Record World : Type := mkWorld {
  heap : list Train;
  pnr_counter : Z;
  trains : gmap string nat;
  tickets : gmap string Ticket
}.

(** Field assignments. *)
Definition set_available_seats (v : Z) (t : Train) : Train :=
  mkTrain (train_no t) (name t) (source t) (destination t)
          (total_seats t) v (waiting_list t).

Definition set_waiting_list (l : list string) (t : Train) : Train :=
  mkTrain (train_no t) (name t) (source t) (destination t)
          (total_seats t) (available_seats t) l.

Definition set_status (s : Status) (t : Ticket) : Ticket :=
  mkTicket (pnr t) (train t) (passengers t) s (booking_date t).

Definition with_heap (h : list Train) (w : World) : World :=
  mkWorld h (pnr_counter w) (trains w) (tickets w).

Definition with_trains (d : gmap string nat) (w : World) : World :=
  mkWorld (heap w) (pnr_counter w) d (tickets w).

Definition with_tickets (d : gmap string Ticket) (w : World) : World :=
  mkWorld (heap w) (pnr_counter w) (trains w) d.

Definition with_pnr_counter (c : Z) (w : World) : World :=
  mkWorld (heap w) c (trains w) (tickets w).

(** What an operation prints. *)
Inductive Output : Type :=
| Constructed (a : nat)                       (* [Train(...)] evaluated to the object at [a] *)
| Train_added                                 (* "Train '...' added successfully." *)
| Error_invalid_train_number                  (* "Error: Invalid train number." *)
| Error_passengers_must_be_positive           (* "Error: Number of passengers must be positive." *)
| Booking_confirmed (t : Ticket)              (* "Booking Successful! Your ticket is confirmed." *)
| Booking_waiting (t : Ticket) (position : nat) (* "... on the waiting list (Position: n)." *)
| Error_invalid_PNR_number                    (* "Error: Invalid PNR number." *)
| Error_already_cancelled                     (* "Error: This ticket has already been cancelled." *)
| Ticket_cancelled (p : string) (promoted : option string)
| PNR_status (t : Ticket) (position : option Z).

(** The exceptions the operations can raise by themselves. *)
Inductive Exception : Type := KeyError | ValueError.

(** How a call ends.  [Stuck] stands for a reference to no object, which
    no Python state contains; the reachable worlds never produce it. *)
Inductive Res : Type :=
| Returned (w : World) (out : Output)
| Raised (e : Exception) (w : World)
| Stuck (w : World).

(** ** class Train *)

Definition Train_init (train_no name source destination : string)
    (total_seats : Z) : Train :=
  mkTrain train_no name source destination total_seats total_seats [].

Definition check_availability (t : Train) : Z := available_seats t.

(** Evaluating [Train(...)]: a new object, at the next free address. *)
Definition new_train (train_no name source destination : string)
    (total_seats : Z) (w : World) : Res :=
  Returned
    (with_heap (heap w ++ [Train_init train_no name source destination total_seats]) w)
    (Constructed (length (heap w))).

(** ** class Ticket *)

(** [Ticket.__init__], given the counter, the reference [a] to the train,
    the train object [t] it points to, and the clock reading [now]. *)
Definition Ticket_init (counter : Z) (a : nat) (t : Train)
    (passengers : list Passenger) (now : Z) : Z * Ticket :=
  let counter' := counter + 1 in
  (counter',
   mkTicket (str counter') a passengers
            (if len passengers <=? check_availability t then Confirmed else Waiting)
            now).

(** ** class ReservationSystem *)

Definition ReservationSystem_init (counter : Z) : World :=
  mkWorld [] counter ∅ ∅.

Definition add_train (a : nat) (w : World) : Res :=
  match heap w !! a with
  | None => Stuck w
  | Some t => Returned (with_trains (<[train_no t := a]> (trains w)) w) Train_added
  end.

(** [book_ticket].  The inputs are the train number and the passengers
    typed in; [num_passengers] is their number. *)
Definition book_ticket (train_no : string) (passengers : list Passenger)
    (now : Z) (w : World) : Res :=
  match trains w !! train_no with
  | None => Returned w Error_invalid_train_number
  | Some a =>
    let num_passengers := len passengers in
    if num_passengers <=? 0 then Returned w Error_passengers_must_be_positive
    else
      match heap w !! a with
      | None => Stuck w
      | Some selected_train =>
        let '(counter', new_ticket) :=
          Ticket_init (pnr_counter w) a selected_train passengers now in
        let w1 :=
          with_tickets (<[pnr new_ticket := new_ticket]> (tickets w))
                       (with_pnr_counter counter' w) in
        match status new_ticket with
        | Confirmed =>
          let t' := set_available_seats
                      (available_seats selected_train - len passengers)
                      selected_train in
          Returned (with_heap (<[a := t']> (heap w1)) w1)
                   (Booking_confirmed new_ticket)
        | _ =>
          let wl := waiting_list selected_train ++ [pnr new_ticket] in
          let t' := set_waiting_list wl selected_train in
          Returned (with_heap (<[a := t']> (heap w1)) w1)
                   (Booking_waiting new_ticket (length wl))
        end
      end
  end.

(** [ticket in self.tickets.values()] *)
Definition in_values (t : Ticket) (d : gmap string Ticket) : bool :=
  bool_decide (t ∈ (map_to_list d).*2).

(** Lines 134-143 of [cancel_ticket]: the ticket is marked, then the
    seats are given back under the condition of line 142, which reads the
    status of the ticket that line 138 has just written. *)
Definition mark_and_credit (pnr_to_cancel : string) (ticket_to_cancel : Ticket)
    (train0 : Train) (w : World) : World :=
  let a := train ticket_to_cancel in
  let num_passengers := len (passengers ticket_to_cancel) in
  let ticket_to_cancel' := set_status Cancelled ticket_to_cancel in
  let w1 := with_tickets (<[pnr_to_cancel := ticket_to_cancel']> (tickets w)) w in
  if in_values ticket_to_cancel' (tickets w1)
     && negb (bool_decide (status ticket_to_cancel' = Cancelled))
  then
    with_heap
      (<[a := set_available_seats (available_seats train0 + num_passengers) train0]>
         (heap w1)) w1
  else w1.

(** Lines 145-154 of [cancel_ticket]: the head of the waiting list of the
    train at [a]. *)
Definition promote_head (pnr_to_cancel : string) (a : nat) (w : World) : Res :=
  match heap w !! a with
  | None => Stuck w
  | Some train1 =>
    match waiting_list train1 with
    | [] => Returned w (Ticket_cancelled pnr_to_cancel None)
    | pnr_from_wl :: rest =>
      match tickets w !! pnr_from_wl with
      | None => Raised KeyError w
      | Some ticket_to_confirm =>
        if len (passengers ticket_to_confirm) <=? available_seats train1 then
          let w1 :=
            with_tickets
              (<[pnr_from_wl := set_status Confirmed ticket_to_confirm]> (tickets w)) w in
          let train2 :=
            set_waiting_list rest
              (set_available_seats
                 (available_seats train1 - len (passengers ticket_to_confirm))
                 train1) in
          Returned (with_heap (<[a := train2]> (heap w1)) w1)
                   (Ticket_cancelled pnr_to_cancel (Some pnr_from_wl))
        else Returned w (Ticket_cancelled pnr_to_cancel None)
      end
    end
  end.

Definition cancel_ticket (pnr_to_cancel : string) (w : World) : Res :=
  match tickets w !! pnr_to_cancel with
  | None => Returned w Error_invalid_PNR_number
  | Some ticket_to_cancel =>
    if bool_decide (status ticket_to_cancel = Cancelled)
    then Returned w Error_already_cancelled
    else
      match heap w !! train ticket_to_cancel with
      | None => Stuck w
      | Some train0 =>
        promote_head pnr_to_cancel (train ticket_to_cancel)
          (mark_and_credit pnr_to_cancel ticket_to_cancel train0 w)
      end
  end.

(** [list.index]: the position of the first occurrence. *)
Fixpoint index (x : string) (l : list string) : option Z :=
  match l with
  | [] => None
  | y :: l' => if decide (y = x) then Some 0 else option_map Z.succ (index x l')
  end.

Definition check_pnr_status (pnr_to_check : string) (w : World) : Res :=
  match tickets w !! pnr_to_check with
  | Some ticket =>
    match status ticket with
    | Waiting =>
      match heap w !! train ticket with
      | None => Stuck w
      | Some t =>
        match index pnr_to_check (waiting_list t) with
        | None => Raised ValueError w
        | Some i => Returned w (PNR_status ticket (Some (i + 1)))
        end
      end
    | _ => Returned w (PNR_status ticket None)
    end
  | None => Returned w Error_invalid_PNR_number
  end.

(** ** Runs of the process *)

Inductive Op : Type :=
| New_train (train_no name source destination : string) (total_seats : Z)
| Add_train (a : nat)
| Book_ticket (train_no : string) (passengers : list Passenger) (now : Z)
| Cancel_ticket (p : string)
| Check_pnr_status (p : string).

Definition exec (o : Op) (w : World) : Res :=
  match o with
  | New_train n nm s d c => new_train n nm s d c w
  | Add_train a => add_train a w
  | Book_ticket n ps now => book_ticket n ps now w
  | Cancel_ticket p => cancel_ticket p w
  | Check_pnr_status p => check_pnr_status p w
  end.

(** A run goes on as long as the calls return. *)
Fixpoint run (ops : list Op) (w : World) : option World :=
  match ops with
  | [] => Some w
  | o :: ops' =>
    match exec o w with
    | Returned w' _ => run ops' w'
    | _ => None
    end
  end.

(** [random.randint(1000000, 9999999)] *)
Definition seed_ok (c : Z) : Prop := 1000000 <= c <= 9999999.

Definition reachable (w : World) : Prop :=
  ∃ c ops, seed_ok c ∧ run ops (ReservationSystem_init c) = Some w.

(** Seats held by the Confirmed tickets of the train at [a]. *)
Definition confirmed_seats (a : nat) (w : World) : Z :=
  foldr (λ kt acc,
           if bool_decide (train kt.2 = a ∧ status kt.2 = Confirmed)
           then len (passengers kt.2) + acc else acc)
        0 (map_to_list (tickets w)).

(** The ticket an output announces as created. *)
Definition created (r : Res) : option Ticket :=
  match r with
  | Returned _ (Booking_confirmed t) | Returned _ (Booking_waiting t _) => Some t
  | _ => None
  end.

(** ** Sample runs *)

Definition P (n a : string) : Passenger := mkPassenger n a.

Definition demo_ops : list Op :=
  [ New_train "12028" "Shatabdi Express" "Bengaluru" "Chennai" 2;
    Add_train 0;
    Book_ticket "12028" [P "A" "30"; P "B" "31"] 0;
    Book_ticket "12028" [P "C" "32"] 1 ].

(** ** The invariant of the reachable worlds *)

(** Every ticket is stored under its own PNR, which is the decimal string
    of a value the counter has already passed; references point to train
    objects; every PNR of a waiting list names a ticket of that train that
    is not Confirmed and needs more seats than the train has available; no
    waiting list repeats a PNR; a Waiting ticket is in the waiting list of
    its train. *)
Record Inv (w : World) : Prop := mkInv {
  inv_keys : ∀ p t, tickets w !! p = Some t →
    pnr t = p ∧ ∃ k, p = str k ∧ k <= pnr_counter w;
  inv_ticket_train : ∀ p t, tickets w !! p = Some t →
    (train t < length (heap w))%nat;
  inv_dir : ∀ n a, trains w !! n = Some a → (a < length (heap w))%nat;
  inv_wl : ∀ a tr p, heap w !! a = Some tr → p ∈ waiting_list tr →
    ∃ t, tickets w !! p = Some t ∧ train t = a ∧ status t ≠ Confirmed
         ∧ available_seats tr < len (passengers t);
  inv_nodup : ∀ a tr, heap w !! a = Some tr → NoDup (waiting_list tr);
  inv_waiting : ∀ p t, tickets w !! p = Some t → status t = Waiting →
    ∃ tr, heap w !! train t = Some tr ∧ p ∈ waiting_list tr
}.

(** The ticket and the world a booking produces when the seats suffice,
    and when they do not. *)
Definition booked_confirmed (a : nat) (tr : Train) (ps : list Passenger)
    (now : Z) (w : World) : Ticket * World :=
  let tk := mkTicket (str (pnr_counter w + 1)) a ps Confirmed now in
  (tk,
   mkWorld (<[a := set_available_seats (available_seats tr - len ps) tr]> (heap w))
           (pnr_counter w + 1) (trains w)
           (<[str (pnr_counter w + 1) := tk]> (tickets w))).

Definition booked_waiting (a : nat) (tr : Train) (ps : list Passenger)
    (now : Z) (w : World) : Ticket * World :=
  let tk := mkTicket (str (pnr_counter w + 1)) a ps Waiting now in
  (tk,
   mkWorld (<[a := set_waiting_list (waiting_list tr ++ [str (pnr_counter w + 1)]) tr]>
              (heap w))
           (pnr_counter w + 1) (trains w)
           (<[str (pnr_counter w + 1) := tk]> (tickets w))).

(** ** Transitions *)

(** An operation is well formed when the reference it passes points to an
    object. *)
Definition op_ok (o : Op) (w : World) : Prop :=
  match o with
  | Add_train a => (a < length (heap w))%nat
  | _ => True
  end.

(** The changes of state the operations make in a world that satisfies
    the invariant. *)
Inductive transition (w : World) : World → Prop :=
| tr_none : transition w w
| tr_new_train n nm s d c :
    transition w (with_heap (heap w ++ [Train_init n nm s d c]) w)
| tr_add_train a t :
    heap w !! a = Some t →
    transition w (with_trains (<[train_no t := a]> (trains w)) w)
| tr_confirmed n a tr ps now :
    trains w !! n = Some a → heap w !! a = Some tr → ps ≠ [] →
    len ps <= available_seats tr →
    transition w (booked_confirmed a tr ps now w).2
| tr_waiting n a tr ps now :
    trains w !! n = Some a → heap w !! a = Some tr → ps ≠ [] →
    available_seats tr < len ps →
    transition w (booked_waiting a tr ps now w).2
| tr_cancel p t :
    tickets w !! p = Some t → status t ≠ Cancelled →
    transition w (with_tickets (<[p := set_status Cancelled t]> (tickets w)) w).

(** ** Sample worlds *)

(** The world a run from the seed 1000000 ends in. *)
Definition world_after (ops : list Op) : World :=
  default (ReservationSystem_init 0) (run ops (ReservationSystem_init 1000000)).

(** Two seats, both booked by the first ticket, which is then cancelled. *)
Definition cancel_confirmed_ops : list Op :=
  [ New_train "12028" "Shatabdi Express" "Bengaluru" "Chennai" 2;
    Add_train 0;
    Book_ticket "12028" [P "A" "30"; P "B" "31"] 0;
    Cancel_ticket "1000001" ].

(** [demo_ops], then the waiting ticket is cancelled. *)
Definition cancel_waiting_ops : list Op := demo_ops ++ [Cancel_ticket "1000002"].

(** A world in which the head of the waiting list fits once the first
    ticket is cancelled, and one in which only a later entry would fit. *)
Definition head_fits_world : World :=
  mkWorld
    [mkTrain "12028" "Shatabdi Express" "Bengaluru" "Chennai" 3 1
             ["1000002"; "1000003"]]
    1000003 {["12028" := 0%nat]}
    (<["1000001" := mkTicket "1000001" 0 [P "A" "30"] Confirmed 0]>
       (<["1000002" := mkTicket "1000002" 0 [P "C" "32"] Waiting 1]>
          (<["1000003" := mkTicket "1000003" 0 [P "D" "33"] Waiting 2]> ∅))).

Definition head_blocks_world : World :=
  mkWorld
    [mkTrain "12028" "Shatabdi Express" "Bengaluru" "Chennai" 3 1
             ["1000002"; "1000003"]]
    1000003 {["12028" := 0%nat]}
    (<["1000001" := mkTicket "1000001" 0 [P "A" "30"] Confirmed 0]>
       (<["1000002" := mkTicket "1000002" 0 [P "C" "32"; P "E" "34"] Waiting 1]>
          (<["1000003" := mkTicket "1000003" 0 [P "D" "33"] Waiting 2]> ∅))).

(** The waiting-list invariant as the specification words it. *)
Definition waiting_list_all_Waiting (w : World) : Prop :=
  ∀ a tr p, heap w !! a = Some tr → p ∈ waiting_list tr →
    ∃ t, tickets w !! p = Some t ∧ status t = Waiting ∧ train t = a.

(** Two trains with the same number. *)
Definition duplicate_ops : list Op :=
  [ New_train "12028" "Shatabdi Express" "Bengaluru" "Chennai" 150;
    Add_train 0;
    Book_ticket "12028" [P "A" "30"] 0;
    New_train "12028" "Night Mail" "Mysuru" "Hubballi" 10 ].

(** ** Listing the trains of a route *)


Section Display.

(** [str.lower] and [str.upper] of the Python library. *)
Variables lower upper : string → string.





End Display.

(** ** Notions for the properties of runs *)

(** What never changes in a train. *)
Definition same_train (t t' : Train) : Prop :=
  train_no t' = train_no t ∧ name t' = name t ∧ source t' = source t
  ∧ destination t' = destination t ∧ total_seats t' = total_seats t.

(** What never changes in a ticket. *)
Definition same_booking (t t' : Ticket) : Prop :=
  pnr t' = pnr t ∧ train t' = train t ∧ passengers t' = passengers t
  ∧ booking_date t' = booking_date t.

(** A list of PNRs whose numbers grow from the front to the back. *)
Definition pnr_increasing (l : list string) : Prop :=
  ∀ i j p q, (i < j)%nat → l !! i = Some p → l !! j = Some q →
    ∃ k1 k2, int p = Some k1 ∧ int q = Some k2 ∧ k1 < k2.

(** The seats a ticket holds on the train at [a]: the summand of
    [confirmed_seats]. *)
Definition held (a : nat) (t : Ticket) : Z :=
  if bool_decide (train t = a ∧ status t = Confirmed) then len (passengers t) else 0.

(** The sum of [held] over the entries of a dictionary of tickets. *)
Definition held_sum (a : nat) (l : list (string * Ticket)) : Z :=
  foldr (λ kt acc, held a kt.2 + acc) 0 l.

Definition confirmed_of (a : nat) (m : gmap string Ticket) : Z :=
  held_sum a (map_to_list m).




(** The sum of [g] over the entries of a dictionary of tickets. *)
Definition entries_sum (g : string * Ticket → Z) (m : gmap string Ticket) : Z :=
  foldr (λ kt acc, g kt + acc) 0 (map_to_list m).

(** The seats of an entry of [tickets] that was booked on the train at
    [a] and is not named by the waiting list [wl]. *)
Definition seats_taken (a : nat) (wl : list string) (kt : string * Ticket) : Z :=
  if bool_decide (train kt.2 = a ∧ kt.1 ∉ wl) then len (passengers kt.2) else 0.

(** ** Worlds reached by a run *)

Lemma reachable_world_after ops :
  is_Some (run ops (ReservationSystem_init 1000000)) → reachable (world_after ops).
Proof.
  intros [w H]. exists 1000000, ops. split; [unfold seed_ok; lia|].
  unfold world_after. rewrite H. reflexivity.
Defined.

(** ** Proof steps that recur *)

Ltac evaluate := vm_compute; reflexivity.

Ltac by_run := apply reachable_world_after; vm_compute; eexists; reflexivity.

(** ** Sample evaluations *)

Example str_example : str 1000001 = "1000001".
Proof. reflexivity. Qed.

Example demo_run :
  (w ← run demo_ops (ReservationSystem_init 1000000);
   t ← heap w !! 0%nat;
   Some (available_seats t, waiting_list t, pnr_counter w))
  = Some (0, ["1000002"], 1000002).
Proof. evaluate. Qed.

(** ** Decimal strings *)

Lemma to_int_proper (z : Z) :
  Z.to_int z ≠ Decimal.Pos Decimal.Nil ∧ Z.to_int z ≠ Decimal.Neg Decimal.Nil.
Proof.
  destruct z as [|q|q]; simpl; split; try discriminate;
    intros [= H]; exact (DecimalPos.Unsigned.to_uint_nonnil q H).
Qed.

Lemma int_str (z : Z) : int (str z) = Some z.
Proof.
  unfold int, str. destruct (to_int_proper z) as [Hp Hn].
  rewrite (NilZero.isi _ Hp Hn). simpl. f_equal. apply DecimalZ.of_to.
Qed.

Lemma str_inj (x y : Z) : str x = str y → x = y.
Proof.
  intros H. assert (E : int (str x) = int (str y)) by (f_equal; exact H).
  rewrite !int_str in E. congruence.
Qed.

(** ** The two halves of [cancel_ticket] *)

(** Line 138 writes "Cancelled" into the status that line 142 then
    compares with "Cancelled": the seats are never given back. *)
Lemma mark_and_credit_eq p t tr w :
  mark_and_credit p t tr w
  = with_tickets (<[p := set_status Cancelled t]> (tickets w)) w.
Proof.
  unfold mark_and_credit. simpl.
  rewrite andb_false_r. reflexivity.
Qed.

Lemma mark_and_credit_heap p t tr w :
  heap (mark_and_credit p t tr w) = heap w.
Proof. rewrite mark_and_credit_eq. reflexivity. Qed.

Lemma cancel_ticket_accepted p t tr w :
  tickets w !! p = Some t → status t ≠ Cancelled →
  heap w !! train t = Some tr →
  cancel_ticket p w
  = promote_head p (train t) (mark_and_credit p t tr w).
Proof.
  intros Hp Hs Ha. unfold cancel_ticket. rewrite Hp.
  rewrite bool_decide_eq_false_2 by exact Hs. rewrite Ha. reflexivity.
Qed.

(** ** The invariant at the start, and what it means for a cancellation *)

Lemma Inv_init c : Inv (ReservationSystem_init c).
Proof.
  split; simpl; intros *; try (rewrite lookup_empty; discriminate);
    intros H; inversion H.
Qed.

Lemma Inv_fresh w : Inv w → tickets w !! str (pnr_counter w + 1) = None.
Proof.
  intros I. destruct (tickets w !! str (pnr_counter w + 1)) as [t|] eqn:E; [|done].
  destruct (inv_keys w I _ _ E) as [_ (k & Hk & Hle)].
  apply str_inj in Hk. lia.
Qed.

(** In a world that satisfies the invariant the head of a waiting list
    never fits: an accepted cancellation only marks the ticket. *)
Lemma cancel_ticket_Inv p t w :
  Inv w → tickets w !! p = Some t → status t ≠ Cancelled →
  cancel_ticket p w
  = Returned (with_tickets (<[p := set_status Cancelled t]> (tickets w)) w)
             (Ticket_cancelled p None).
Proof.
  intros I Hp Hs.
  destruct (lookup_lt_is_Some_2 _ _ (inv_ticket_train w I _ _ Hp)) as [tr Ha].
  rewrite (cancel_ticket_accepted p t tr w Hp Hs Ha), mark_and_credit_eq.
  unfold promote_head. simpl. rewrite Ha.
  destruct (waiting_list tr) as [|h rest] eqn:Ewl; [done|].
  destruct (inv_wl w I _ _ h Ha) as (th & Hh & _ & _ & Hlt).
  { rewrite Ewl. left. }
  destruct (decide (p = h)) as [->|Hne].
  - rewrite lookup_insert_eq. simpl.
    assert (th = t) by congruence. subst th.
    destruct (Z.leb_spec (len (passengers t)) (available_seats tr)); [lia|done].
  - rewrite lookup_insert_ne by done. rewrite Hh.
    destruct (Z.leb_spec (len (passengers th)) (available_seats tr)); [lia|done].
Qed.

(** ** What a booking does *)

Lemma len_pos {A} (l : list A) : l ≠ [] → 0 < len l.
Proof. destruct l; [done|]. intros _. unfold len. simpl. lia. Qed.

Lemma book_ticket_confirmed n ps now w a tr :
  trains w !! n = Some a → heap w !! a = Some tr → ps ≠ [] →
  len ps <= available_seats tr →
  book_ticket n ps now w
  = Returned (booked_confirmed a tr ps now w).2
             (Booking_confirmed (booked_confirmed a tr ps now w).1).
Proof.
  intros Hn Ha Hps Hle. unfold book_ticket. rewrite Hn. simpl.
  pose proof (len_pos ps Hps) as Hpos.
  destruct (Z.leb_spec (len ps) 0) as [?|_]; [lia|].
  rewrite Ha. unfold Ticket_init, check_availability. simpl.
  destruct (Z.leb_spec (len ps) (available_seats tr)) as [_|?]; [|lia].
  reflexivity.
Qed.

Lemma book_ticket_waiting n ps now w a tr :
  trains w !! n = Some a → heap w !! a = Some tr → ps ≠ [] →
  available_seats tr < len ps →
  book_ticket n ps now w
  = Returned (booked_waiting a tr ps now w).2
             (Booking_waiting (booked_waiting a tr ps now w).1
                              (length (waiting_list tr ++ [str (pnr_counter w + 1)]))).
Proof.
  intros Hn Ha Hps Hlt. unfold book_ticket. rewrite Hn. simpl.
  pose proof (len_pos ps Hps) as Hpos.
  destruct (Z.leb_spec (len ps) 0) as [?|_]; [lia|].
  rewrite Ha. unfold Ticket_init, check_availability. simpl.
  destruct (Z.leb_spec (len ps) (available_seats tr)) as [?|_]; [lia|].
  reflexivity.
Qed.

Lemma book_ticket_rejected n ps now w :
  trains w !! n = None ∨ ps = [] →
  ∃ out, book_ticket n ps now w = Returned w out.
Proof.
  intros H. unfold book_ticket.
  destruct (trains w !! n) as [a|]; [|eauto].
  destruct H as [?| ->]; [done|]. simpl. eauto.
Qed.

(** ** Every operation keeps the invariant *)

Lemma Inv_new_train n nm s d c w :
  Inv w → Inv (with_heap (heap w ++ [Train_init n nm s d c]) w).
Proof.
  intros I. split; simpl.
  - apply (inv_keys w I).
  - intros p t H. rewrite length_app. pose proof (inv_ticket_train w I _ _ H). lia.
  - intros m a H. rewrite length_app. pose proof (inv_dir w I _ _ H). lia.
  - intros a tr p Ha Hp. apply lookup_app_Some in Ha as [Ha|[_ Ha]].
    + exact (inv_wl w I _ _ _ Ha Hp).
    + apply list_lookup_singleton_Some in Ha as [_ <-]. simpl in Hp. inversion Hp.
  - intros a tr Ha. apply lookup_app_Some in Ha as [Ha|[_ Ha]].
    + exact (inv_nodup w I _ _ Ha).
    + apply list_lookup_singleton_Some in Ha as [_ <-]. simpl. constructor.
  - intros p t Hp Hs. destruct (inv_waiting w I _ _ Hp Hs) as (tr & Ha & Hin).
    exists tr. split; [|done]. by apply lookup_app_l_Some.
Qed.

Lemma Inv_add_train a t w :
  Inv w → heap w !! a = Some t →
  Inv (with_trains (<[train_no t := a]> (trains w)) w).
Proof.
  intros I Ha. split; simpl;
    [apply (inv_keys w I) | apply (inv_ticket_train w I) | |
     apply (inv_wl w I) | apply (inv_nodup w I) | apply (inv_waiting w I)].
  intros m b H. apply lookup_insert_Some in H as [[_ <-]|[_ H]].
  - by apply lookup_lt_Some in Ha.
  - exact (inv_dir w I _ _ H).
Qed.

Lemma Inv_cancel p t w :
  Inv w → tickets w !! p = Some t →
  Inv (with_tickets (<[p := set_status Cancelled t]> (tickets w)) w).
Proof.
  intros I Hp. split; simpl.
  - intros q u H. apply lookup_insert_Some in H as [[<- <-]|[_ H]].
    + simpl. exact (inv_keys w I _ _ Hp).
    + exact (inv_keys w I _ _ H).
  - intros q u H. apply lookup_insert_Some in H as [[<- <-]|[_ H]].
    + simpl. exact (inv_ticket_train w I _ _ Hp).
    + exact (inv_ticket_train w I _ _ H).
  - apply (inv_dir w I).
  - intros a tr q Ha Hq.
    destruct (inv_wl w I _ _ _ Ha Hq) as (u & Hu & Htr & Hst & Hlt).
    destruct (decide (p = q)) as [->|Hne].
    + exists (set_status Cancelled t). rewrite lookup_insert_eq.
      assert (u = t) by congruence. subst u. simpl. done.
    + exists u. rewrite lookup_insert_ne by done. done.
  - apply (inv_nodup w I).
  - intros q u H Hs. apply lookup_insert_Some in H as [[<- <-]|[_ H]].
    + simpl in Hs. discriminate.
    + exact (inv_waiting w I _ _ H Hs).
Qed.

Lemma Inv_wl_not_fresh w a tr :
  Inv w → heap w !! a = Some tr → str (pnr_counter w + 1) ∉ waiting_list tr.
Proof.
  intros I Ha Hin. destruct (inv_wl w I _ _ _ Ha Hin) as (u & Hu & _).
  rewrite (Inv_fresh w I) in Hu. discriminate.
Qed.

Lemma Inv_booked_confirmed a tr ps now w :
  Inv w → heap w !! a = Some tr → 0 < len ps →
  Inv (booked_confirmed a tr ps now w).2.
Proof.
  intros I Ha Hpos. pose proof (Inv_fresh w I) as Hfresh.
  pose proof (lookup_lt_Some _ _ _ Ha) as Hlen.
  split; simpl.
  - intros q u H. apply lookup_insert_Some in H as [[<- <-]|[_ H]].
    + simpl. split; [done|]. exists (pnr_counter w + 1). split; [done|lia].
    + destruct (inv_keys w I _ _ H) as [? (k & ? & ?)].
      split; [done|]. exists k. split; [done|lia].
  - intros q u H. rewrite length_insert.
    apply lookup_insert_Some in H as [[<- <-]|[_ H]]; [done|].
    exact (inv_ticket_train w I _ _ H).
  - intros m b H. rewrite length_insert. exact (inv_dir w I _ _ H).
  - intros b tr' q Hb Hq.
    assert (∃ tr0, heap w !! b = Some tr0
                   ∧ waiting_list tr' = waiting_list tr0
                   ∧ available_seats tr' <= available_seats tr0)
      as (tr0 & Hb0 & Ewl & Hav).
    { destruct (decide (a = b)) as [<-|Hne].
      - rewrite list_lookup_insert_eq in Hb by done. injection Hb as <-.
        exists tr. simpl. split; [done|]. split; [done|lia].
      - rewrite list_lookup_insert_ne in Hb by done. exists tr'.
        split; [done|]. split; [done|lia]. }
    rewrite Ewl in Hq.
    destruct (inv_wl w I _ _ _ Hb0 Hq) as (u & Hu & Htr & Hst & Hlt).
    exists u. rewrite lookup_insert_ne by congruence.
    split; [done|]. split; [done|]. split; [done|lia].
  - intros b tr' Hb. destruct (decide (a = b)) as [<-|Hne].
    + rewrite list_lookup_insert_eq in Hb by done. injection Hb as <-.
      simpl. exact (inv_nodup w I _ _ Ha).
    + rewrite list_lookup_insert_ne in Hb by done. exact (inv_nodup w I _ _ Hb).
  - intros q u H Hs. apply lookup_insert_Some in H as [[<- <-]|[_ H]].
    + simpl in Hs. discriminate.
    + destruct (inv_waiting w I _ _ H Hs) as (tr0 & Hb & Hin).
      destruct (decide (a = train u)) as [E|Hne].
      * rewrite <- E in *. assert (tr0 = tr) by congruence. subst tr0.
        eexists. rewrite list_lookup_insert_eq by done. split; [done|]. done.
      * exists tr0. rewrite list_lookup_insert_ne by done. done.
Qed.

Lemma Inv_booked_waiting a tr ps now w :
  Inv w → heap w !! a = Some tr → available_seats tr < len ps →
  Inv (booked_waiting a tr ps now w).2.
Proof.
  intros I Ha Hlt. pose proof (Inv_fresh w I) as Hfresh.
  pose proof (lookup_lt_Some _ _ _ Ha) as Hlen.
  split; simpl.
  - intros q u H. apply lookup_insert_Some in H as [[<- <-]|[_ H]].
    + simpl. split; [done|]. exists (pnr_counter w + 1). split; [done|lia].
    + destruct (inv_keys w I _ _ H) as [? (k & ? & ?)].
      split; [done|]. exists k. split; [done|lia].
  - intros q u H. rewrite length_insert.
    apply lookup_insert_Some in H as [[<- <-]|[_ H]]; [done|].
    exact (inv_ticket_train w I _ _ H).
  - intros m b H. rewrite length_insert. exact (inv_dir w I _ _ H).
  - intros b tr' q Hb Hq. destruct (decide (a = b)) as [<-|Hne].
    + rewrite list_lookup_insert_eq in Hb by done. injection Hb as <-.
      simpl in Hq. apply elem_of_app in Hq as [Hq|Hq].
      * destruct (inv_wl w I _ _ _ Ha Hq) as (u & Hu & Htr & Hst & Hl).
        exists u. rewrite lookup_insert_ne by congruence. done.
      * apply list_elem_of_singleton in Hq as ->.
        eexists. rewrite lookup_insert_eq. split; [done|]. simpl. done.
    + rewrite list_lookup_insert_ne in Hb by done.
      destruct (inv_wl w I _ _ _ Hb Hq) as (u & Hu & Htr & Hst & Hl).
      exists u. rewrite lookup_insert_ne by congruence. done.
  - intros b tr' Hb. destruct (decide (a = b)) as [<-|Hne].
    + rewrite list_lookup_insert_eq in Hb by done. injection Hb as <-.
      simpl. apply NoDup_app. split; [exact (inv_nodup w I _ _ Ha)|].
      split; [|apply NoDup_singleton].
      intros x Hx Hx'. apply list_elem_of_singleton in Hx' as ->.
      exact (Inv_wl_not_fresh w a tr I Ha Hx).
    + rewrite list_lookup_insert_ne in Hb by done. exact (inv_nodup w I _ _ Hb).
  - intros q u H Hs. apply lookup_insert_Some in H as [[<- <-]|[_ H]].
    + simpl. eexists. rewrite list_lookup_insert_eq by done.
      split; [done|]. simpl. apply elem_of_app. right. by apply list_elem_of_singleton.
    + destruct (inv_waiting w I _ _ H Hs) as (tr0 & Hb & Hin).
      destruct (decide (a = train u)) as [E|Hne].
      * rewrite <- E in *. assert (tr0 = tr) by congruence. subst tr0.
        eexists. rewrite list_lookup_insert_eq by done. split; [done|].
        simpl. apply elem_of_app. by left.
      * exists tr0. rewrite list_lookup_insert_ne by done. done.
Qed.

(** ** [list.index] *)

Lemma index_elem_of p l : p ∈ l → ∃ i, index p l = Some i ∧ 0 <= i.
Proof.
  induction l as [|y l IH]; intros H; [inversion H|].
  simpl. destruct (decide (y = p)) as [->|Hne].
  - exists 0. split; [done|lia].
  - apply elem_of_cons in H as [->|H]; [done|].
    destruct (IH H) as (i & -> & Hi). exists (Z.succ i). split; [done|lia].
Qed.

Lemma index_Some p l i :
  index p l = Some i → 0 <= i ∧ l !! Z.to_nat i = Some p.
Proof.
  revert i. induction l as [|y l IH]; intros i H; [discriminate|].
  simpl in H. destruct (decide (y = p)) as [->|Hne].
  - injection H as <-. split; [lia|done].
  - destruct (index p l) as [j|]; [|discriminate]. injection H as <-.
    destruct (IH j eq_refl) as [Hj Hl]. split; [lia|].
    rewrite Z2Nat.inj_succ by done. done.
Qed.

Lemma check_pnr_status_waiting p t tr w :
  tickets w !! p = Some t → status t = Waiting →
  heap w !! train t = Some tr → p ∈ waiting_list tr →
  ∃ i, index p (waiting_list tr) = Some i ∧ 0 <= i
       ∧ check_pnr_status p w = Returned w (PNR_status t (Some (i + 1))).
Proof.
  intros Hp Hs Ha Hin. destruct (index_elem_of _ _ Hin) as (i & Hi & H0).
  exists i. split; [done|]. split; [done|].
  unfold check_pnr_status. rewrite Hp, Hs, Ha, Hi. reflexivity.
Qed.

Lemma check_pnr_status_Inv p w :
  Inv w → ∃ out, check_pnr_status p w = Returned w out.
Proof.
  intros I. destruct (tickets w !! p) as [t|] eqn:Hp.
  - destruct (decide (status t = Waiting)) as [Hs|Hs].
    + destruct (inv_waiting w I _ _ Hp Hs) as (tr & Ha & Hin).
      destruct (check_pnr_status_waiting p t tr w Hp Hs Ha Hin) as (i & _ & _ & E).
      eauto.
    + unfold check_pnr_status. rewrite Hp. destruct (status t); eauto. done.
  - unfold check_pnr_status. rewrite Hp. eauto.
Qed.

(** ** Operations as transitions *)

Lemma exec_transition o w :
  Inv w → op_ok o w →
  ∃ w' out, exec o w = Returned w' out ∧ transition w w'.
Proof.
  intros I Hok. destruct o as [n nm s d c|a|n ps now|p|p]; simpl.
  - eexists _, _. split; [reflexivity|]. constructor.
  - simpl in Hok. destruct (lookup_lt_is_Some_2 _ _ Hok) as [t Ha].
    unfold add_train. rewrite Ha. eexists _, _. split; [reflexivity|].
    by constructor.
  - destruct (trains w !! n) as [a|] eqn:Hn.
    2:{ destruct (book_ticket_rejected n ps now w) as [out E]; [by left|].
        exists w, out. split; [done|constructor]. }
    destruct (decide (ps = [])) as [Hps|Hps].
    { destruct (book_ticket_rejected n ps now w) as [out E]; [by right|].
      exists w, out. split; [done|constructor]. }
    destruct (lookup_lt_is_Some_2 _ _ (inv_dir w I _ _ Hn)) as [tr Ha].
    destruct (Z.le_gt_cases (len ps) (available_seats tr)) as [Hle|Hgt].
    + eexists _, _. split; [by apply (book_ticket_confirmed n ps now w a tr)|].
      by apply (tr_confirmed w n).
    + eexists _, _. split; [by apply (book_ticket_waiting n ps now w a tr)|].
      by apply (tr_waiting w n).
  - destruct (tickets w !! p) as [t|] eqn:Hp.
    2:{ unfold cancel_ticket. rewrite Hp. eexists _, _. split; [done|constructor]. }
    destruct (decide (status t = Cancelled)) as [Hs|Hs].
    { unfold cancel_ticket. rewrite Hp, bool_decide_eq_true_2 by done.
      eexists _, _. split; [done|constructor]. }
    rewrite (cancel_ticket_Inv p t w I Hp Hs).
    eexists _, _. split; [done|]. by constructor.
  - destruct (check_pnr_status_Inv p w I) as [out E].
    exists w, out. split; [done|constructor].
Qed.

Lemma exec_op_ok o w w' out : exec o w = Returned w' out → op_ok o w.
Proof.
  destruct o; simpl; try done. unfold add_train.
  destruct (heap w !! a) eqn:E; [|discriminate]. intros _.
  by apply lookup_lt_Some in E.
Qed.

Lemma transition_Inv w w' : Inv w → transition w w' → Inv w'.
Proof.
  intros I T. destruct T.
  - done.
  - by apply Inv_new_train.
  - by apply Inv_add_train.
  - apply Inv_booked_confirmed; [done|done|by apply len_pos].
  - by apply Inv_booked_waiting.
  - by apply Inv_cancel.
Qed.

Lemma exec_Inv o w w' out :
  Inv w → exec o w = Returned w' out → Inv w' ∧ transition w w'.
Proof.
  intros I E.
  destruct (exec_transition o w I (exec_op_ok _ _ _ _ E)) as (w1 & out1 & E1 & T).
  rewrite E in E1. injection E1 as <- <-. split; [|done].
  by apply (transition_Inv w).
Qed.

Lemma run_Inv ops w w' : Inv w → run ops w = Some w' → Inv w'.
Proof.
  revert w. induction ops as [|o ops IH]; intros w I H; simpl in H.
  - by injection H as <-.
  - destruct (exec o w) as [w1 out| |] eqn:E; try discriminate.
    apply (IH w1); [|done]. by destruct (exec_Inv o w w1 out I E).
Qed.

Lemma run_app ops1 ops2 w :
  run (ops1 ++ ops2) w = run ops1 w ≫= run ops2.
Proof.
  revert w. induction ops1 as [|o ops1 IH]; intros w; simpl; [done|].
  destruct (exec o w); [apply IH|done|done].
Qed.

Lemma reachable_Inv w : reachable w → Inv w.
Proof.
  intros (c & ops & _ & H). exact (run_Inv ops _ w (Inv_init c) H).
Qed.

Lemma reachable_exec o w w' out :
  reachable w → exec o w = Returned w' out → reachable w'.
Proof.
  intros (c & ops & Hc & H) E. exists c, (ops ++ [o]). split; [done|].
  rewrite run_app, H. simpl. by rewrite E.
Qed.

Lemma reachable_run ops w w' :
  reachable w → run ops w = Some w' → reachable w'.
Proof.
  intros (c & ops0 & Hc & H) E. exists c, (ops0 ++ ops). split; [done|].
  rewrite run_app, H. simpl. done.
Qed.

(** ** The PNR counter *)

Lemma promote_head_counter p a w w' out :
  promote_head p a w = Returned w' out →
  pnr_counter w' = pnr_counter w ∧ ∃ pr, out = Ticket_cancelled p pr.
Proof.
  unfold promote_head. intros H.
  destruct (heap w !! a) as [tr|]; [|discriminate].
  destruct (waiting_list tr) as [|h rest]; [injection H as <- <-; eauto|].
  destruct (tickets w !! h) as [th|]; [|discriminate].
  destruct (len (passengers th) <=? available_seats tr);
    injection H as <- <-; eauto.
Qed.

Lemma exec_counter o w w' out :
  exec o w = Returned w' out →
  pnr_counter w <= pnr_counter w'
  ∧ ∀ tk, created (exec o w) = Some tk →
      pnr tk = str (pnr_counter w + 1) ∧ pnr_counter w' = pnr_counter w + 1.
Proof.
  destruct o as [n nm s d c|a|n ps now|p|p]; simpl.
  - intros [= <- <-]. simpl. split; [lia|discriminate].
  - unfold add_train. destruct (heap w !! a); [|discriminate].
    intros [= <- <-]. simpl. split; [lia|discriminate].
  - unfold book_ticket. destruct (trains w !! n) as [a|].
    2:{ intros [= <- <-]. simpl. split; [lia|discriminate]. }
    simpl. destruct (len ps <=? 0).
    { intros [= <- <-]. simpl. split; [lia|discriminate]. }
    destruct (heap w !! a) as [tr|]; [|discriminate].
    unfold Ticket_init. simpl.
    destruct (len ps <=? check_availability tr); simpl;
      intros [= <- <-]; simpl; (split; [lia|]); intros tk [= <-]; done.
  - unfold cancel_ticket. destruct (tickets w !! p) as [t|].
    2:{ intros [= <- <-]. simpl. split; [lia|discriminate]. }
    destruct (bool_decide (status t = Cancelled)).
    { intros [= <- <-]. simpl. split; [lia|discriminate]. }
    destruct (heap w !! train t) as [tr|]; [|discriminate].
    intros H. rewrite H. apply promote_head_counter in H as [H [pr ->]].
    rewrite mark_and_credit_eq in H. simpl in H. split; [lia|discriminate].
  - unfold check_pnr_status. destruct (tickets w !! p) as [t|].
    2:{ intros [= <- <-]. simpl. split; [lia|discriminate]. }
    destruct (status t).
    1,3: intros [= <- <-]; simpl; split; [lia|discriminate].
    destruct (heap w !! train t) as [tr|]; [|discriminate].
    destruct (index p (waiting_list tr)); [|discriminate].
    intros [= <- <-]. simpl. split; [lia|discriminate].
Qed.

Lemma run_counter ops w w' :
  run ops w = Some w' → pnr_counter w <= pnr_counter w'.
Proof.
  revert w. induction ops as [|o ops IH]; intros w H; simpl in H.
  - injection H as <-. lia.
  - destruct (exec o w) as [w1 out| |] eqn:E; try discriminate.
    pose proof (proj1 (exec_counter o w w1 out E)). pose proof (IH w1 H). lia.
Qed.

(** ** The claims *)

(** C9.  [Ticket.__init__] increments the counter and names the ticket by
    the decimal string of the incremented counter.  Hence, for two tickets
    created in one process, the later one's PNR read as a number is
    strictly greater than the earlier one's, and the two PNRs differ. *)
Theorem pnr_strictly_increasing o1 w1 w1' out1 tk1 ops w2 o2 tk2 :
  exec o1 w1 = Returned w1' out1 → created (exec o1 w1) = Some tk1 →
  run ops w1' = Some w2 → created (exec o2 w2) = Some tk2 →
  (∀ c a t ps now, Ticket_init c a t ps now
                   = (c + 1, mkTicket (str (c + 1)) a ps (status (Ticket_init c a t ps now).2) now))
  ∧ pnr tk1 = str (pnr_counter w1 + 1)
  ∧ pnr_counter w1' = pnr_counter w1 + 1
  ∧ ∃ k1 k2, int (pnr tk1) = Some k1 ∧ int (pnr tk2) = Some k2 ∧ k1 < k2
             ∧ pnr tk1 ≠ pnr tk2.
Proof.
  intros E1 C1 R C2. split; [reflexivity|].
  destruct (exec_counter o1 w1 w1' out1 E1) as [_ H1].
  destruct (H1 tk1 C1) as [Hp1 Hc1].
  assert (∃ w2' out2, exec o2 w2 = Returned w2' out2) as (w2' & out2 & E2).
  { destruct (exec o2 w2) as [w' out| |]; [eauto|discriminate|discriminate]. }
  destruct (exec_counter o2 w2 w2' out2 E2) as [_ H2].
  destruct (H2 tk2 C2) as [Hp2 _].
  pose proof (run_counter ops w1' w2 R) as Hmono.
  split; [done|]. split; [done|].
  exists (pnr_counter w1 + 1), (pnr_counter w2 + 1).
  rewrite Hp1, Hp2, !int_str. split; [done|]. split; [done|]. split; [lia|].
  intros Heq. apply str_inj in Heq. lia.
Qed.

Lemma pnr_strictly_increasing_witness :
  let w1 := world_after [New_train "12028" "Shatabdi Express" "Bengaluru" "Chennai" 2;
                         Add_train 0] in
  let o1 := Book_ticket "12028" [P "A" "30"; P "B" "31"] 0 in
  let o2 := Book_ticket "12028" [P "C" "32"] 1 in
  ∃ tk1 tk2, created (exec o1 w1) = Some tk1
    ∧ created (exec o2 (world_after [New_train "12028" "Shatabdi Express" "Bengaluru" "Chennai" 2;
                                      Add_train 0; o1; Check_pnr_status "1000001"]))
      = Some tk2
    ∧ int (pnr tk1) = Some 1000001 ∧ int (pnr tk2) = Some 1000002
    ∧ pnr tk1 ≠ pnr tk2.
Proof.
  intros w1 o1 o2.
  pose (w1' := world_after [New_train "12028" "Shatabdi Express" "Bengaluru" "Chennai" 2;
                            Add_train 0; o1]).
  pose (w2 := world_after [New_train "12028" "Shatabdi Express" "Bengaluru" "Chennai" 2;
                           Add_train 0; o1; Check_pnr_status "1000001"]).
  pose (tk1 := mkTicket "1000001" 0 [P "A" "30"; P "B" "31"] Confirmed 0).
  pose (tk2 := mkTicket "1000002" 0 [P "C" "32"] Waiting 1).
  assert (E1 : exec o1 w1 = Returned w1' (Booking_confirmed tk1))
    by (evaluate).
  assert (C1 : created (exec o1 w1) = Some tk1) by (evaluate).
  assert (R : run [Check_pnr_status "1000001"] w1' = Some w2)
    by (evaluate).
  assert (C2 : created (exec o2 w2) = Some tk2) by (evaluate).
  destruct (pnr_strictly_increasing o1 w1 w1' _ tk1 _ w2 o2 tk2 E1 C1 R C2)
    as (_ & _ & _ & k1 & k2 & _ & _ & _ & Hne).
  exists tk1, tk2. split; [exact C1|]. split; [exact C2|].
  split; [evaluate|]. split; [evaluate|]. exact Hne.
Defined.

(** C10.  In every reachable state a ticket whose status is Waiting has
    its PNR in the waiting list of its train, so [check_pnr_status] finds
    its index and reports the position [index + 1] without raising. *)
Theorem waiting_ticket_has_position w p t :
  reachable w → tickets w !! p = Some t → status t = Waiting →
  ∃ tr i, heap w !! train t = Some tr ∧ p ∈ waiting_list tr
          ∧ index p (waiting_list tr) = Some i ∧ 0 <= i
          ∧ check_pnr_status p w = Returned w (PNR_status t (Some (i + 1))).
Proof.
  intros Hr Hp Hs. pose proof (reachable_Inv w Hr) as I.
  destruct (inv_waiting w I _ _ Hp Hs) as (tr & Ha & Hin).
  destruct (check_pnr_status_waiting p t tr w Hp Hs Ha Hin) as (i & Hi & H0 & E).
  exists tr, i. done.
Qed.

Lemma waiting_ticket_has_position_witness :
  check_pnr_status "1000002" (world_after demo_ops)
  = Returned (world_after demo_ops)
             (PNR_status (mkTicket "1000002" 0 [P "C" "32"] Waiting 1) (Some 1)).
Proof.
  destruct (waiting_ticket_has_position (world_after demo_ops) "1000002"
              (mkTicket "1000002" 0 [P "C" "32"] Waiting 1))
    as (tr & i & Ha & _ & Hi & _ & E).
  - by_run.
  - evaluate.
  - reflexivity.
  - rewrite E. vm_compute in Ha. injection Ha as <-.
    vm_compute in Hi. injection Hi as <-. reflexivity.
Defined.

(** C3.  In every reachable state, whatever operation is called, the call
    returns and a ticket whose status is Cancelled still has the status
    Cancelled afterwards. *)
Theorem Cancelled_is_terminal w o p t :
  reachable w → op_ok o w → tickets w !! p = Some t → status t = Cancelled →
  ∃ w' out t', exec o w = Returned w' out
               ∧ tickets w' !! p = Some t' ∧ status t' = Cancelled.
Proof.
  intros Hr Hok Hp Hs. pose proof (reachable_Inv w Hr) as I.
  destruct (exec_transition o w I Hok) as (w' & out & E & T).
  exists w', out. pose proof (Inv_fresh w I) as Hfresh.
  destruct T as [|n nm s d c|a t0 Ha|n a tr ps now _ _ _ _|n a tr ps now _ _ _ _|q t0 Hq Hs0];
    simpl.
  - exists t. done.
  - exists t. done.
  - exists t. done.
  - exists t. rewrite lookup_insert_ne by congruence. done.
  - exists t. rewrite lookup_insert_ne by congruence. done.
  - destruct (decide (q = p)) as [->|Hne].
    + congruence.
    + exists t. rewrite lookup_insert_ne by done. done.
Qed.

Lemma Cancelled_is_terminal_witness :
  ∃ w' out t',
    exec (Cancel_ticket "1000003") (world_after (cancel_waiting_ops
            ++ [Book_ticket "12028" [P "D" "33"] 2])) = Returned w' out
    ∧ tickets w' !! "1000002" = Some t' ∧ status t' = Cancelled.
Proof.
  apply (Cancelled_is_terminal _ _ "1000002"
           (mkTicket "1000002" 0 [P "C" "32"] Cancelled 1)).
  - by_run.
  - exact I.
  - evaluate.
  - reflexivity.
Defined.

(** C7.  [cancel_ticket] with a PNR that is not a key of [tickets] is
    rejected as "Invalid PNR number", and with the PNR of a ticket that is
    already Cancelled as "already been cancelled"; in both cases the world
    it returns is the world it was called in. *)
Theorem cancel_ticket_rejections p w :
  (tickets w !! p = None → cancel_ticket p w = Returned w Error_invalid_PNR_number)
  ∧ (∀ t, tickets w !! p = Some t → status t = Cancelled →
          cancel_ticket p w = Returned w Error_already_cancelled).
Proof.
  unfold cancel_ticket. split.
  - intros ->. reflexivity.
  - intros t -> Hs. rewrite bool_decide_eq_true_2 by done. reflexivity.
Qed.

Lemma cancel_ticket_rejections_witness :
  cancel_ticket "42" (world_after cancel_confirmed_ops)
  = Returned (world_after cancel_confirmed_ops) Error_invalid_PNR_number
  ∧ cancel_ticket "1000001" (world_after cancel_confirmed_ops)
    = Returned (world_after cancel_confirmed_ops) Error_already_cancelled.
Proof.
  split.
  - apply (proj1 (cancel_ticket_rejections "42" (world_after cancel_confirmed_ops))).
    evaluate.
  - apply (proj2 (cancel_ticket_rejections "1000001" (world_after cancel_confirmed_ops))
             (mkTicket "1000001" 0 [P "A" "30"; P "B" "31"] Cancelled 0)).
    + evaluate.
    + reflexivity.
Defined.

(** C6.  For a train number of the directory and a non-empty passenger
    list of length n, [book_ticket] creates a ticket for these passengers
    and stores it under its PNR.  If the train has at least n available
    seats the ticket is Confirmed and the available seats decrease by
    exactly n, the waiting list staying as it is; otherwise the ticket is
    Waiting, its PNR is appended at the end of the waiting list and the
    available seats stay as they are.  No other train changes. *)
Theorem book_ticket_spec n ps now w a tr :
  trains w !! n = Some a → heap w !! a = Some tr → ps ≠ [] →
  ∃ tk w' out tr',
    book_ticket n ps now w = Returned w' out
    ∧ created (book_ticket n ps now w) = Some tk
    ∧ passengers tk = ps ∧ train tk = a
    ∧ tickets w' !! pnr tk = Some tk
    ∧ heap w' !! a = Some tr'
    ∧ (∀ b, b ≠ a → heap w' !! b = heap w !! b)
    ∧ (len ps <= available_seats tr →
         status tk = Confirmed
         ∧ available_seats tr' = available_seats tr - len ps
         ∧ waiting_list tr' = waiting_list tr)
    ∧ (available_seats tr < len ps →
         status tk = Waiting
         ∧ waiting_list tr' = waiting_list tr ++ [pnr tk]
         ∧ available_seats tr' = available_seats tr).
Proof.
  intros Hn Ha Hps. pose proof (lookup_lt_Some _ _ _ Ha) as Hlen.
  destruct (Z.le_gt_cases (len ps) (available_seats tr)) as [Hle|Hgt].
  - rewrite (book_ticket_confirmed n ps now w a tr Hn Ha Hps Hle).
    eexists _, _, _, _. split; [reflexivity|]. simpl.
    split; [reflexivity|]. split; [reflexivity|]. split; [reflexivity|].
    split; [apply lookup_insert_eq|].
    split; [by apply list_lookup_insert_eq|].
    split; [intros b Hb; by apply list_lookup_insert_ne|].
    split; [done|]. intros ?. lia.
  - rewrite (book_ticket_waiting n ps now w a tr Hn Ha Hps Hgt).
    eexists _, _, _, _. split; [reflexivity|]. simpl.
    split; [reflexivity|]. split; [reflexivity|]. split; [reflexivity|].
    split; [apply lookup_insert_eq|].
    split; [by apply list_lookup_insert_eq|].
    split; [intros b Hb; by apply list_lookup_insert_ne|].
    split; [intros ?; lia|]. done.
Qed.

Lemma book_ticket_spec_witness :
  ∃ tk w' out tr',
    book_ticket "12028" [P "D" "33"] 2 (world_after demo_ops) = Returned w' out
    ∧ created (book_ticket "12028" [P "D" "33"] 2 (world_after demo_ops)) = Some tk
    ∧ heap w' !! 0%nat = Some tr'
    ∧ status tk = Waiting
    ∧ waiting_list tr' = ["1000002"; pnr tk]
    ∧ available_seats tr' = 0.
Proof.
  destruct (book_ticket_spec "12028" [P "D" "33"] 2 (world_after demo_ops) 0
              (mkTrain "12028" "Shatabdi Express" "Bengaluru" "Chennai" 2 0 ["1000002"]))
    as (tk & w' & out & tr' & E & C & _ & _ & _ & Ha & _ & _ & Hw).
  - evaluate.
  - evaluate.
  - discriminate.
  - exists tk, w', out, tr'. destruct Hw as (Hs & Hwl & Hav).
    + evaluate.
    + split; [exact E|]. split; [exact C|]. split; [exact Ha|].
      split; [exact Hs|]. split; [exact Hwl|exact Hav].
Defined.

(** C5.  An accepted [cancel_ticket] first marks the ticket, which changes
    no waiting list, and then looks at the head of the waiting list of the
    ticket's train only.  With an empty list, or a head that needs more
    seats than the train has at that moment, it returns the world as the
    marking left it: nobody is promoted, no list changes, whatever the
    later entries need.  With a head that fits, the head and no other
    ticket is set to Confirmed, its passenger count is subtracted from
    the available seats and it is removed from the front of the list. *)
Theorem promotion_only_head p t tr tr1 w :
  tickets w !! p = Some t → status t ≠ Cancelled →
  heap w !! train t = Some tr →
  heap (mark_and_credit p t tr w) !! train t = Some tr1 →
  let w1 := mark_and_credit p t tr w in
  waiting_list tr1 = waiting_list tr
  ∧ (∀ b trb, heap w !! b = Some trb →
       ∃ trb', heap w1 !! b = Some trb' ∧ waiting_list trb' = waiting_list trb)
  ∧ tickets w1 = <[p := set_status Cancelled t]> (tickets w)
  ∧ (waiting_list tr1 = [] →
       cancel_ticket p w = Returned w1 (Ticket_cancelled p None))
  ∧ (∀ h rest th, waiting_list tr1 = h :: rest → tickets w1 !! h = Some th →
       (available_seats tr1 < len (passengers th) →
          cancel_ticket p w = Returned w1 (Ticket_cancelled p None))
       ∧ (len (passengers th) <= available_seats tr1 →
          ∃ w' tr2,
            cancel_ticket p w = Returned w' (Ticket_cancelled p (Some h))
            ∧ tickets w' = <[h := set_status Confirmed th]> (tickets w1)
            ∧ heap w' = <[train t := tr2]> (heap w1)
            ∧ available_seats tr2 = available_seats tr1 - len (passengers th)
            ∧ waiting_list tr2 = rest)).
Proof.
  intros Hp Hs Ha Ha1 w1.
  rewrite (cancel_ticket_accepted p t tr w Hp Hs Ha). fold w1.
  assert (Hheap : heap w1 = heap w) by apply mark_and_credit_heap.
  split. { unfold w1 in Ha1. rewrite mark_and_credit_heap in Ha1. congruence. }
  split. { intros b trb Hb. exists trb. rewrite Hheap. done. }
  split. { unfold w1. rewrite mark_and_credit_eq. reflexivity. }
  unfold promote_head. fold w1 in Ha1. rewrite Ha1. split.
  - intros ->. reflexivity.
  - intros h rest th -> ->. split.
    + intros Hlt.
      destruct (Z.leb_spec (len (passengers th)) (available_seats tr1)); [lia|done].
    + intros Hle.
      destruct (Z.leb_spec (len (passengers th)) (available_seats tr1)); [|lia].
      eexists _, _. split; [reflexivity|]. simpl. done.
Qed.

Lemma promotion_only_head_witness :
  (∃ w', cancel_ticket "1000001" head_fits_world
         = Returned w' (Ticket_cancelled "1000001" (Some "1000002"))
         ∧ waiting_list <$> heap w' !! 0%nat = Some ["1000003"]
         ∧ available_seats <$> heap w' !! 0%nat = Some 0)
  ∧ (∃ w', cancel_ticket "1000001" head_blocks_world
           = Returned w' (Ticket_cancelled "1000001" None)
           ∧ waiting_list <$> heap w' !! 0%nat = Some ["1000002"; "1000003"]).
Proof.
  pose (t := mkTicket "1000001" 0 [P "A" "30"] Confirmed 0).
  pose (tr := mkTrain "12028" "Shatabdi Express" "Bengaluru" "Chennai" 3 1
                      ["1000002"; "1000003"]).
  split.
  - destruct (promotion_only_head "1000001" t tr tr head_fits_world)
      as (_ & _ & _ & _ & H).
    + evaluate.
    + discriminate.
    + reflexivity.
    + evaluate.
    + destruct (H "1000002" ["1000003"]
                  (mkTicket "1000002" 0 [P "C" "32"] Waiting 1)) as [_ Hfit].
      * reflexivity.
      * evaluate.
      * destruct Hfit as (w' & tr2 & E & _ & Hh & Hav & Hwl).
        { vm_compute. discriminate. }
        exists w'. split; [exact E|]. rewrite Hh.
        change (train t) with 0%nat. rewrite list_lookup_insert_eq.
        -- simpl. rewrite Hwl, Hav. split; reflexivity.
        -- vm_compute. lia.
  - destruct (promotion_only_head "1000001" t tr tr head_blocks_world)
      as (_ & _ & _ & _ & H).
    + evaluate.
    + discriminate.
    + reflexivity.
    + evaluate.
    + destruct (H "1000002" ["1000003"]
                  (mkTicket "1000002" 0 [P "C" "32"; P "E" "34"] Waiting 1))
        as [Hblock _].
      * reflexivity.
      * evaluate.
      * eexists. split; [apply Hblock; evaluate|].
        evaluate.
Defined.

(** C4, as stated, fails: the second ticket of [demo_ops] is Waiting;
    cancelling it returns with its PNR still in the waiting list of its
    train, in a reachable world whose waiting list therefore names a
    Cancelled ticket. *)
Lemma waiting_list_keeps_cancelled_ticket :
  reachable (world_after demo_ops)
  ∧ status <$> tickets (world_after demo_ops) !! "1000002" = Some Waiting
  ∧ cancel_ticket "1000002" (world_after demo_ops)
    = Returned (world_after cancel_waiting_ops) (Ticket_cancelled "1000002" None)
  ∧ waiting_list <$> heap (world_after cancel_waiting_ops) !! 0%nat = Some ["1000002"]
  ∧ status <$> tickets (world_after cancel_waiting_ops) !! "1000002" = Some Cancelled
  ∧ reachable (world_after cancel_waiting_ops)
  ∧ ¬ waiting_list_all_Waiting (world_after cancel_waiting_ops).
Proof.
  split. { by_run. }
  split. { evaluate. }
  split. { evaluate. }
  split. { evaluate. }
  split. { evaluate. }
  split. { by_run. }
  intros H.
  destruct (H 0%nat (mkTrain "12028" "Shatabdi Express" "Bengaluru" "Chennai" 2 0
                             ["1000002"]) "1000002")
    as (t & Ht & Hs & _).
  - evaluate.
  - left.
  - assert (E : status <$> tickets (world_after cancel_waiting_ops) !! "1000002"
                = Some Cancelled) by (evaluate).
    rewrite Ht in E. simpl in E. congruence.
Qed.

(** C4, amended.  In every reachable state every PNR of a waiting list
    names an existing ticket of that train whose status is Waiting or
    Cancelled, and no PNR appears twice; [cancel_ticket] on a Waiting
    ticket returns without promoting anybody and leaves every train, hence
    every waiting list and the ticket's own entry, as it was. *)
Theorem waiting_list_invariant w :
  reachable w →
  (∀ a tr, heap w !! a = Some tr →
     NoDup (waiting_list tr)
     ∧ ∀ p, p ∈ waiting_list tr →
         ∃ t, tickets w !! p = Some t ∧ train t = a
              ∧ (status t = Waiting ∨ status t = Cancelled))
  ∧ (∀ p t, tickets w !! p = Some t → status t = Waiting →
       ∃ w' tr, cancel_ticket p w = Returned w' (Ticket_cancelled p None)
                ∧ heap w' = heap w
                ∧ heap w' !! train t = Some tr ∧ p ∈ waiting_list tr
                ∧ status <$> tickets w' !! p = Some Cancelled).
Proof.
  intros Hr. pose proof (reachable_Inv w Hr) as I. split.
  - intros a tr Ha. split; [exact (inv_nodup w I _ _ Ha)|].
    intros p Hp. destruct (inv_wl w I _ _ _ Ha Hp) as (t & Ht & Htr & Hs & _).
    exists t. split; [done|]. split; [done|].
    destruct (status t); [done|by left|by right].
  - intros p t Hp Hs.
    destruct (inv_waiting w I _ _ Hp Hs) as (tr & Ha & Hin).
    rewrite (cancel_ticket_Inv p t w I Hp) by congruence.
    eexists _, tr. split; [reflexivity|]. simpl.
    split; [done|]. split; [done|]. split; [done|].
    rewrite lookup_insert_eq. reflexivity.
Qed.

Lemma waiting_list_invariant_witness :
  ∃ w' tr, cancel_ticket "1000002" (world_after demo_ops)
           = Returned w' (Ticket_cancelled "1000002" None)
           ∧ heap w' !! 0%nat = Some tr ∧ "1000002" ∈ waiting_list tr.
Proof.
  destruct (waiting_list_invariant (world_after demo_ops)) as [_ H].
  - by_run.
  - destruct (H "1000002" (mkTicket "1000002" 0 [P "C" "32"] Waiting 1))
      as (w' & tr & E & _ & Ha & Hin & _).
    + evaluate.
    + reflexivity.
    + exists w', tr. split; [exact E|]. split; [exact Ha|exact Hin].
Defined.

(** C8, as stated, fails: with "12028" bound in the directory, adding a
    second train numbered "12028" returns "added successfully" and the
    directory then names the second train. *)
Lemma add_train_accepts_duplicate :
  reachable (world_after duplicate_ops)
  ∧ trains (world_after duplicate_ops) !! "12028" = Some 0%nat
  ∧ train_no <$> heap (world_after duplicate_ops) !! 1%nat = Some "12028"
  ∧ ∃ w', add_train 1 (world_after duplicate_ops) = Returned w' Train_added
          ∧ trains w' !! "12028" = Some 1%nat.
Proof.
  split. { by_run. }
  split. { evaluate. }
  split. { evaluate. }
  eexists. split; evaluate.
Qed.

(** C8, amended.  [add_train] never fails: it binds the number of the
    train it is given to that train, whether or not the number was bound
    before, and returns.  Every train object, the one bound before
    included, every ticket, the counter and every other entry of the
    directory stay as they were. *)
Theorem add_train_rebinds a t w :
  heap w !! a = Some t →
  ∃ w', add_train a w = Returned w' Train_added
        ∧ trains w' !! train_no t = Some a
        ∧ (∀ n, n ≠ train_no t → trains w' !! n = trains w !! n)
        ∧ heap w' = heap w ∧ tickets w' = tickets w
        ∧ pnr_counter w' = pnr_counter w.
Proof.
  intros Ha. unfold add_train. rewrite Ha. eexists. split; [reflexivity|].
  simpl. split; [apply lookup_insert_eq|].
  split; [|done]. intros n Hn. by apply lookup_insert_ne.
Qed.

Lemma add_train_rebinds_witness :
  ∃ w', add_train 1 (world_after duplicate_ops) = Returned w' Train_added
        ∧ trains w' !! "12028" = Some 1%nat
        ∧ heap w' = heap (world_after duplicate_ops)
        ∧ tickets w' = tickets (world_after duplicate_ops).
Proof.
  destruct (add_train_rebinds 1
              (mkTrain "12028" "Night Mail" "Mysuru" "Hubballi" 10 10 [])
              (world_after duplicate_ops))
    as (w' & E & Hn & _ & Hh & Ht & _).
  - evaluate.
  - exists w'. split; [exact E|]. split; [exact Hn|]. split; [exact Hh|exact Ht].
Defined.

(** ** Where the code loses seats *)

(** In no world does [cancel_ticket] raise the available seats of a
    train. *)
Lemma cancel_ticket_never_credits p w w' out a tr :
  cancel_ticket p w = Returned w' out → heap w !! a = Some tr →
  ∃ tr', heap w' !! a = Some tr' ∧ available_seats tr' <= available_seats tr.
Proof.
  unfold cancel_ticket. intros H Ha.
  destruct (tickets w !! p) as [t|]; [|injection H as <- _; exists tr; split; [done|lia]].
  destruct (bool_decide (status t = Cancelled));
    [injection H as <- _; exists tr; split; [done|lia]|].
  destruct (heap w !! train t) as [tr0|] eqn:Ha0; [|discriminate].
  rewrite mark_and_credit_eq in H. unfold promote_head in H. simpl in H.
  rewrite Ha0 in H.
  destruct (waiting_list tr0) as [|h rest];
    [injection H as <- _; exists tr; split; [done|lia]|].
  destruct (_ !! h) as [th|]; [|discriminate].
  destruct (len (passengers th) <=? available_seats tr0);
    [|injection H as <- _; exists tr; split; [done|lia]].
  injection H as <- _. simpl.
  destruct (decide (train t = a)) as [E|Hne].
  - rewrite E in *. rewrite list_lookup_insert_eq by (by apply lookup_lt_Some in Ha).
    eexists. split; [reflexivity|]. simpl. assert (tr0 = tr) by congruence.
    subst tr0. unfold len. lia.
  - rewrite list_lookup_insert_ne by done. exists tr. split; [done|lia].
Qed.

(** C1, on the code.  A train of two seats, both booked by one Confirmed
    ticket which is then cancelled: no Confirmed ticket is left, yet no
    seat is available, so available seats plus Confirmed seats is 0 and
    not the capacity 2. *)
Theorem seats_lost_after_cancel :
  reachable (world_after cancel_confirmed_ops)
  ∧ total_seats <$> heap (world_after cancel_confirmed_ops) !! 0%nat = Some 2
  ∧ available_seats <$> heap (world_after cancel_confirmed_ops) !! 0%nat = Some 0
  ∧ confirmed_seats 0 (world_after cancel_confirmed_ops) = 0.
Proof.
  split. { by_run. }
  split; [|split]; evaluate.
Qed.

(** C2, on the code.  After [demo_ops] the Confirmed ticket 1000001 holds
    both seats and 1000002 waits for one.  Cancelling 1000001 gives no
    seat back: the available seats are 0 before and after, and the head
    of the waiting list, which the two seats would serve, stays Waiting. *)
Theorem cancel_confirmed_gives_no_seat_back :
  tickets (world_after demo_ops) !! "1000001"
  = Some (mkTicket "1000001" 0 [P "A" "30"; P "B" "31"] Confirmed 0)
  ∧ available_seats <$> heap (world_after demo_ops) !! 0%nat = Some 0
  ∧ ∃ w', cancel_ticket "1000001" (world_after demo_ops)
          = Returned w' (Ticket_cancelled "1000001" None)
          ∧ available_seats <$> heap w' !! 0%nat = Some 0
          ∧ waiting_list <$> heap w' !! 0%nat = Some ["1000002"]
          ∧ status <$> tickets w' !! "1000002" = Some Waiting.
Proof.
  split. { evaluate. }
  split. { evaluate. }
  eexists. split; [evaluate|].
  split; [|split]; evaluate.
Qed.


(** ** Induction over runs *)

Lemma run_transitions (R : World → World → Prop) :
  (∀ w, R w w) →
  (∀ w1 w2 w3, R w1 w2 → R w2 w3 → R w1 w3) →
  (∀ w w', Inv w → transition w w' → R w w') →
  ∀ ops w w', Inv w → run ops w = Some w' → R w w'.
Proof.
  intros Hrefl Htrans Hstep ops. induction ops as [|o ops IH]; intros w w' I H.
  - injection H as <-. apply Hrefl.
  - simpl in H. destruct (exec o w) as [w1 out| |] eqn:E; try discriminate.
    destruct (exec_Inv o w w1 out I E) as [I1 T].
    apply (Htrans w w1 w'); [by apply Hstep|by apply IH].
Qed.

Lemma run_invariant (Q : World → Prop) :
  (∀ w w', Inv w → transition w w' → Q w → Q w') →
  ∀ ops w w', Inv w → Q w → run ops w = Some w' → Q w'.
Proof.
  intros Hstep ops w w' I HQ H.
  apply (run_transitions (λ w w', Q w → Q w')) with (ops := ops) (w := w);
    [auto|auto|exact Hstep|done|done|done].
Qed.

Lemma reachable_invariant (Q : World → Prop) :
  (∀ c, Q (ReservationSystem_init c)) →
  (∀ w w', Inv w → transition w w' → Q w → Q w') →
  ∀ w, reachable w → Q w.
Proof.
  intros Hinit Hstep w (c & ops & _ & H).
  exact (run_invariant Q Hstep ops _ w (Inv_init c) (Hinit c) H).
Qed.

(** ** Further properties of the operations *)

(** X1.  [book_ticket] with a train number that is not in the directory
    prints "Invalid train number" whatever the passengers are, and with a
    known number and no passenger prints "Number of passengers must be
    positive"; in both cases the world, the PNR counter included, is the
    one of the call. *)
Theorem book_ticket_rejections n ps now w :
  (trains w !! n = None →
     book_ticket n ps now w = Returned w Error_invalid_train_number)
  ∧ (∀ a, trains w !! n = Some a → ps = [] →
       book_ticket n ps now w = Returned w Error_passengers_must_be_positive).
Proof.
  unfold book_ticket. split.
  - intros ->. reflexivity.
  - intros a -> ->. reflexivity.
Qed.

Lemma book_ticket_rejections_witness :
  book_ticket "99999" [] 5 (world_after demo_ops)
  = Returned (world_after demo_ops) Error_invalid_train_number
  ∧ book_ticket "12028" [] 5 (world_after demo_ops)
    = Returned (world_after demo_ops) Error_passengers_must_be_positive.
Proof.
  split.
  - apply (proj1 (book_ticket_rejections "99999" [] 5 (world_after demo_ops))).
    evaluate.
  - apply (proj2 (book_ticket_rejections "12028" [] 5 (world_after demo_ops)) 0%nat).
    + evaluate.
    + reflexivity.
Defined.

(** X2.  In a reachable world no operation raises: every call returns,
    and in a reachable world again. *)
Theorem reachable_never_raises w o :
  reachable w → op_ok o w →
  ∃ w' out, exec o w = Returned w' out ∧ reachable w'.
Proof.
  intros Hr Hok.
  destruct (exec_transition o w (reachable_Inv w Hr) Hok) as (w' & out & E & _).
  exists w', out. split; [done|]. exact (reachable_exec o w w' out Hr E).
Qed.

Lemma reachable_never_raises_witness :
  ∃ w' out, exec (Cancel_ticket "1000001") (world_after demo_ops) = Returned w' out
            ∧ reachable w'.
Proof.
  apply reachable_never_raises.
  - by_run.
  - exact I.
Defined.

(** X3.  In a reachable world an accepted [cancel_ticket] changes the
    status of the cancelled ticket and nothing else: no train changes and
    nobody is promoted.  A second [cancel_ticket] with the same PNR is
    rejected as already cancelled. *)
Theorem cancel_ticket_only_marks w p t :
  reachable w → tickets w !! p = Some t → status t ≠ Cancelled →
  ∃ w', cancel_ticket p w = Returned w' (Ticket_cancelled p None)
        ∧ heap w' = heap w ∧ trains w' = trains w
        ∧ pnr_counter w' = pnr_counter w
        ∧ tickets w' = <[p := set_status Cancelled t]> (tickets w)
        ∧ cancel_ticket p w' = Returned w' Error_already_cancelled.
Proof.
  intros Hr Hp Hs. rewrite (cancel_ticket_Inv p t w (reachable_Inv w Hr) Hp Hs).
  eexists. split; [reflexivity|]. simpl.
  split; [done|]. split; [done|]. split; [done|]. split; [done|].
  unfold cancel_ticket. simpl. rewrite lookup_insert_eq. reflexivity.
Qed.

Lemma cancel_ticket_only_marks_witness :
  ∃ w', cancel_ticket "1000001" (world_after demo_ops)
        = Returned w' (Ticket_cancelled "1000001" None)
        ∧ heap w' = heap (world_after demo_ops)
        ∧ cancel_ticket "1000001" w' = Returned w' Error_already_cancelled.
Proof.
  destruct (cancel_ticket_only_marks (world_after demo_ops) "1000001"
              (mkTicket "1000001" 0 [P "A" "30"; P "B" "31"] Confirmed 0))
    as (w' & E & Hh & _ & _ & _ & E2).
  - by_run.
  - evaluate.
  - discriminate.
  - exists w'. split; [exact E|]. split; [exact Hh|exact E2].
Defined.

Lemma index_app_fresh p l :
  p ∉ l → index p (l ++ [p]) = Some (Z.of_nat (length l)).
Proof.
  induction l as [|y l IH]; intros Hn; simpl.
  - rewrite decide_True by done. reflexivity.
  - apply not_elem_of_cons in Hn as [Hne Hn].
    rewrite decide_False by done. rewrite (IH Hn). simpl. f_equal. lia.
Qed.

(** X4.  In a reachable world, after [book_ticket] has created a ticket,
    [check_pnr_status] with the PNR of that ticket shows that ticket; for a
    ticket on the waiting list it shows the position that the booking
    announced, and for a confirmed one no position. *)
Theorem book_then_status w n a ps now :
  reachable w → trains w !! n = Some a → ps ≠ [] →
  ∃ w' out tk,
    book_ticket n ps now w = Returned w' out
    ∧ created (book_ticket n ps now w) = Some tk
    ∧ check_pnr_status (pnr tk) w'
      = Returned w' (PNR_status tk
                       match out with
                       | Booking_waiting _ position => Some (Z.of_nat position)
                       | _ => None
                       end).
Proof.
  intros Hr Hn Hps. pose proof (reachable_Inv w Hr) as I.
  destruct (lookup_lt_is_Some_2 _ _ (inv_dir w I _ _ Hn)) as [tr Ha].
  pose proof (lookup_lt_Some _ _ _ Ha) as Hlen.
  destruct (Z.le_gt_cases (len ps) (available_seats tr)) as [Hle|Hgt].
  - rewrite (book_ticket_confirmed n ps now w a tr Hn Ha Hps Hle).
    eexists _, _, _. split; [reflexivity|]. split; [reflexivity|].
    unfold check_pnr_status. simpl. rewrite lookup_insert_eq. reflexivity.
  - rewrite (book_ticket_waiting n ps now w a tr Hn Ha Hps Hgt).
    eexists _, _, _. split; [reflexivity|]. split; [reflexivity|].
    unfold check_pnr_status. simpl. rewrite lookup_insert_eq. simpl.
    rewrite list_lookup_insert_eq by done. simpl.
    rewrite (index_app_fresh _ _ (Inv_wl_not_fresh w a tr I Ha)).
    rewrite length_app. simpl. do 3 f_equal. lia.
Qed.

Lemma book_then_status_witness :
  ∃ w' out tk,
    book_ticket "12028" [P "D" "33"] 2 (world_after demo_ops) = Returned w' out
    ∧ created (book_ticket "12028" [P "D" "33"] 2 (world_after demo_ops)) = Some tk
    ∧ check_pnr_status (pnr tk) w'
      = Returned w' (PNR_status tk
                       match out with
                       | Booking_waiting _ position => Some (Z.of_nat position)
                       | _ => None
                       end).
Proof.
  apply (book_then_status (world_after demo_ops) "12028" 0).
  - by_run.
  - evaluate.
  - discriminate.
Defined.

(** ** Trains over a run *)

Lemma same_train_refl t : same_train t t.
Proof. by repeat split. Qed.

Lemma insert_keeps a0 t0 t0' (h : list Train) a t :
  h !! a0 = Some t0 → same_train t0 t0' →
  available_seats t0' <= available_seats t0 →
  h !! a = Some t →
  ∃ t', <[a0 := t0']> h !! a = Some t' ∧ same_train t t'
        ∧ available_seats t' <= available_seats t.
Proof.
  intros Ha0 Hsame Hle Ha. destruct (decide (a0 = a)) as [->|Hne].
  - assert (t0 = t) by congruence. subst t0. exists t0'.
    rewrite list_lookup_insert_eq by (by apply lookup_lt_Some in Ha). done.
  - exists t. rewrite list_lookup_insert_ne by done.
    split; [done|]. split; [apply same_train_refl|lia].
Qed.

Lemma exec_keeps_trains o w w' out a t :
  exec o w = Returned w' out → heap w !! a = Some t →
  ∃ t', heap w' !! a = Some t' ∧ same_train t t'
        ∧ available_seats t' <= available_seats t.
Proof.
  assert (Hsame : ∀ h : list Train, h !! a = Some t →
            ∃ t', h !! a = Some t' ∧ same_train t t'
                  ∧ available_seats t' <= available_seats t).
  { intros h H. exists t. split; [done|]. split; [apply same_train_refl|lia]. }
  destruct o as [n nm s d c|a0|n ps now|p|p]; simpl; intros E Ha.
  - injection E as <- _. simpl. apply Hsame. by apply lookup_app_l_Some.
  - unfold add_train in E. destruct (heap w !! a0); [|discriminate].
    injection E as <- _. by apply Hsame.
  - unfold book_ticket in E. destruct (trains w !! n) as [a0|];
      [|injection E as <- _; by apply Hsame].
    simpl in E. destruct (len ps <=? 0) eqn:Hz;
      [injection E as <- _; by apply Hsame|].
    apply Z.leb_gt in Hz.
    destruct (heap w !! a0) as [tr|] eqn:Ha0; [|discriminate].
    unfold Ticket_init in E. simpl in E.
    destruct (len ps <=? check_availability tr); simpl in E;
      injection E as <- _; simpl;
      apply (insert_keeps a0 tr); try done; simpl; (by repeat split) || lia.
  - destruct (cancel_ticket_never_credits p w w' out a t E Ha) as (t' & Ha' & Hle).
    exists t'. split; [done|]. split; [|done].
    unfold cancel_ticket in E.
    destruct (tickets w !! p) as [tk|]; [|injection E as <- _; simpl in Ha';
      assert (t' = t) by congruence; subst; apply same_train_refl].
    destruct (bool_decide (status tk = Cancelled));
      [injection E as <- _; simpl in Ha'; assert (t' = t) by congruence; subst;
       apply same_train_refl|].
    destruct (heap w !! train tk) as [tr0|] eqn:Ha0; [|discriminate].
    rewrite mark_and_credit_eq in E. unfold promote_head in E. simpl in E.
    rewrite Ha0 in E.
    destruct (waiting_list tr0) as [|h rest];
      [injection E as <- _; simpl in Ha'; assert (t' = t) by congruence; subst;
       apply same_train_refl|].
    destruct (_ !! h) as [th|]; [|discriminate].
    destruct (len (passengers th) <=? available_seats tr0);
      [|injection E as <- _; simpl in Ha'; assert (t' = t) by congruence; subst;
        apply same_train_refl].
    injection E as <- _. simpl in Ha'.
    destruct (decide (train tk = a)) as [Heq|Hne].
    + rewrite Heq in *. rewrite list_lookup_insert_eq in Ha'
        by (by apply lookup_lt_Some in Ha).
      injection Ha' as <-. assert (tr0 = t) by congruence. subst tr0.
      by repeat split.
    + rewrite list_lookup_insert_ne in Ha' by done.
      assert (t' = t) by congruence. subst. apply same_train_refl.
  - unfold check_pnr_status in E. destruct (tickets w !! p) as [tk|];
      [|injection E as <- _; by apply Hsame].
    destruct (status tk); try (injection E as <- _; by apply Hsame).
    destruct (heap w !! train tk) as [tr0|]; [|discriminate].
    destruct (index p (waiting_list tr0)); [|discriminate].
    injection E as <- _. by apply Hsame.
Qed.

(** X5.  Over any run, from any world, a train object stays where it is
    and keeps its number, name, source, destination and total seats, and
    its available seats never grow: no operation gives a seat back. *)
Theorem trains_keep_identity ops w w' a t :
  run ops w = Some w' → heap w !! a = Some t →
  ∃ t', heap w' !! a = Some t' ∧ same_train t t'
        ∧ available_seats t' <= available_seats t.
Proof.
  revert w t. induction ops as [|o ops IH]; intros w t H Ha; simpl in H.
  - injection H as <-. exists t. split; [done|]. split; [apply same_train_refl|lia].
  - destruct (exec o w) as [w1 out| |] eqn:E; try discriminate.
    destruct (exec_keeps_trains o w w1 out a t E Ha) as (t1 & Ha1 & S1 & L1).
    destruct (IH w1 t1 H Ha1) as (t' & Ha' & S' & L').
    exists t'. split; [done|]. split; [|lia].
    destruct S1 as (?&?&?&?&?), S' as (?&?&?&?&?). repeat split; congruence.
Qed.

Lemma trains_keep_identity_witness :
  ∃ t', heap (world_after cancel_confirmed_ops) !! 0%nat = Some t'
        ∧ total_seats t' = 2 ∧ available_seats t' <= 2.
Proof.
  destruct (trains_keep_identity
              [Book_ticket "12028" [P "A" "30"; P "B" "31"] 0; Cancel_ticket "1000001"]
              (world_after [New_train "12028" "Shatabdi Express" "Bengaluru" "Chennai" 2;
                            Add_train 0])
              (world_after cancel_confirmed_ops) 0
              (mkTrain "12028" "Shatabdi Express" "Bengaluru" "Chennai" 2 2 []))
    as (t' & Ha & (_ & _ & _ & _ & Htot) & Hle).
  - evaluate.
  - evaluate.
  - exists t'. split; [exact Ha|]. split; [exact Htot|exact Hle].
Defined.

(** ** Seats *)

(** X6.  In a reachable world no train has more available seats than
    total seats, and a train whose total is not negative never has a
    negative number of available seats. *)
Theorem available_seats_bounds w a t :
  reachable w → heap w !! a = Some t →
  available_seats t <= total_seats t
  ∧ (0 <= total_seats t → 0 <= available_seats t).
Proof.
  intros Hr. revert a t.
  apply (reachable_invariant
           (λ w, ∀ a t, heap w !! a = Some t →
                   available_seats t <= total_seats t
                   ∧ (0 <= total_seats t → 0 <= available_seats t)));
    [| |exact Hr].
  - intros c a t H. simpl in H. inversion H.
  - intros w0 w' I T Q a t Ha.
    destruct T as [|n nm s d c|a0 t0 Ha0|n a0 tr ps now _ Ha0 _ Hle
                   |n a0 tr ps now _ Ha0 _ _|q t0 Hq Hs0]; simpl in Ha.
    + exact (Q _ _ Ha).
    + apply lookup_app_Some in Ha as [Ha|[_ Ha]]; [exact (Q _ _ Ha)|].
      apply list_lookup_singleton_Some in Ha as [_ <-]. simpl. lia.
    + exact (Q _ _ Ha).
    + destruct (decide (a0 = a)) as [->|Hne].
      * rewrite list_lookup_insert_eq in Ha by (by apply lookup_lt_Some in Ha0).
        injection Ha as <-. simpl. destruct (Q _ _ Ha0).
        pose proof (Nat2Z.is_nonneg (length ps)). unfold len in *. lia.
      * rewrite list_lookup_insert_ne in Ha by done. exact (Q _ _ Ha).
    + destruct (decide (a0 = a)) as [->|Hne].
      * rewrite list_lookup_insert_eq in Ha by (by apply lookup_lt_Some in Ha0).
        injection Ha as <-. simpl. exact (Q _ _ Ha0).
      * rewrite list_lookup_insert_ne in Ha by done. exact (Q _ _ Ha).
    + exact (Q _ _ Ha).
Qed.

Lemma available_seats_bounds_witness :
  ∃ t, heap (world_after demo_ops) !! 0%nat = Some t
       ∧ 0 <= available_seats t <= total_seats t.
Proof.
  pose (t := mkTrain "12028" "Shatabdi Express" "Bengaluru" "Chennai" 2 0 ["1000002"]).
  destruct (available_seats_bounds (world_after demo_ops) 0 t) as [Hle Hnn].
  - by_run.
  - evaluate.
  - exists t. split; [evaluate|]. split; [apply Hnn; simpl; lia|exact Hle].
Defined.

Lemma confirmed_seats_of a w : confirmed_seats a w = confirmed_of a (tickets w).
Proof.
  unfold confirmed_seats, confirmed_of, held_sum.
  induction (map_to_list (tickets w)) as [|kt l IH]; simpl; [done|].
  rewrite IH. unfold held. destruct (bool_decide _); lia.
Qed.

Lemma held_nonneg a t : 0 <= held a t.
Proof. unfold held, len. destruct (bool_decide _); lia. Qed.

Lemma held_sum_perm a l1 l2 : l1 ≡ₚ l2 → held_sum a l1 = held_sum a l2.
Proof.
  induction 1 as [|x l1 l2 _ IH|x y l|l1 l2 l3 _ IH1 _ IH2]; simpl.
  - done.
  - unfold held_sum in *. simpl. by rewrite IH.
  - unfold held_sum. simpl. lia.
  - congruence.
Qed.

Lemma confirmed_of_insert_fresh a k t (m : gmap string Ticket) :
  m !! k = None → confirmed_of a (<[k := t]> m) = held a t + confirmed_of a m.
Proof.
  intros H. unfold confirmed_of.
  rewrite (held_sum_perm a _ _ (map_to_list_insert m k t H)). reflexivity.
Qed.

Lemma confirmed_of_update a k t t' (m : gmap string Ticket) :
  m !! k = Some t →
  confirmed_of a (<[k := t']> m) = confirmed_of a m - held a t + held a t'.
Proof.
  intros H. rewrite <- (insert_delete_eq m k t').
  rewrite <- (insert_delete_id m k t H) at 2.
  rewrite !confirmed_of_insert_fresh by apply lookup_delete_eq. lia.
Qed.

Lemma confirmed_of_none a (m : gmap string Ticket) :
  (∀ k t, m !! k = Some t → train t ≠ a) → confirmed_of a m = 0.
Proof.
  intros H. unfold confirmed_of.
  assert (F : ∀ kt, kt ∈ map_to_list m → train kt.2 ≠ a).
  { intros [k t] Hin. apply elem_of_map_to_list in Hin. simpl. by apply (H k). }
  induction (map_to_list m) as [|kt l IH]; [done|].
  unfold held_sum in *. simpl. rewrite IH.
  - unfold held. rewrite bool_decide_eq_false_2; [lia|].
    intros [E _]. apply (F kt); [left|done].
  - intros kt' Hin. apply F. by right.
Qed.

(** X7.  In a reachable world no train is oversold: its available seats
    plus the seats of the Confirmed tickets booked on it never exceed its
    total seats. *)
Theorem never_oversold w a t :
  reachable w → heap w !! a = Some t →
  available_seats t + confirmed_seats a w <= total_seats t.
Proof.
  intros Hr. revert a t.
  apply (reachable_invariant
           (λ w, ∀ a t, heap w !! a = Some t →
                   available_seats t + confirmed_seats a w <= total_seats t));
    [| |exact Hr].
  - intros c a t H. simpl in H. inversion H.
  - intros w0 w' I T Q a t Ha. pose proof (Inv_fresh w0 I) as Hfresh.
    destruct T as [|n nm s d c|a0 t0 Ha0|n a0 tr ps now _ Ha0 _ Hle
                   |n a0 tr ps now _ Ha0 _ _|q t0 Hq Hs0];
      rewrite confirmed_seats_of; simpl in *.
    + rewrite <- confirmed_seats_of. exact (Q _ _ Ha).
    + apply lookup_app_Some in Ha as [Ha|[Hlen Ha]].
      * rewrite <- confirmed_seats_of. exact (Q _ _ Ha).
      * apply list_lookup_singleton_Some in Ha as [Hz <-]. simpl.
        rewrite confirmed_of_none; [lia|].
        intros k tk Hk Htr. pose proof (inv_ticket_train w0 I _ _ Hk). lia.
    + rewrite <- confirmed_seats_of. exact (Q _ _ Ha).
    + rewrite confirmed_of_insert_fresh by done. unfold held. simpl.
      destruct (decide (a0 = a)) as [->|Hne].
      * rewrite list_lookup_insert_eq in Ha by (by apply lookup_lt_Some in Ha0).
        injection Ha as <-. simpl. rewrite bool_decide_eq_true_2 by done.
        pose proof (Q _ _ Ha0) as HQ. rewrite confirmed_seats_of in HQ. lia.
      * rewrite list_lookup_insert_ne in Ha by done.
        rewrite bool_decide_eq_false_2 by (intros [? _]; done).
        pose proof (Q _ _ Ha) as HQ. rewrite confirmed_seats_of in HQ. lia.
    + rewrite confirmed_of_insert_fresh by done. unfold held. simpl.
      rewrite bool_decide_eq_false_2 by (intros [_ ?]; done).
      destruct (decide (a0 = a)) as [->|Hne].
      * rewrite list_lookup_insert_eq in Ha by (by apply lookup_lt_Some in Ha0).
        injection Ha as <-. simpl.
        pose proof (Q _ _ Ha0) as HQ. rewrite confirmed_seats_of in HQ. lia.
      * rewrite list_lookup_insert_ne in Ha by done.
        pose proof (Q _ _ Ha) as HQ. rewrite confirmed_seats_of in HQ. lia.
    + rewrite (confirmed_of_update a q t0) by done.
      pose proof (held_nonneg a t0).
      assert (held a (set_status Cancelled t0) = 0) as ->.
      { unfold held. simpl. by rewrite bool_decide_eq_false_2 by (intros [_ ?]; done). }
      pose proof (Q _ _ Ha) as HQ. rewrite confirmed_seats_of in HQ. lia.
Qed.

Lemma never_oversold_witness :
  ∃ t, heap (world_after demo_ops) !! 0%nat = Some t
       ∧ available_seats t + confirmed_seats 0 (world_after demo_ops) <= total_seats t
       ∧ confirmed_seats 0 (world_after demo_ops) = 2.
Proof.
  pose (t := mkTrain "12028" "Shatabdi Express" "Bengaluru" "Chennai" 2 0 ["1000002"]).
  exists t. split; [evaluate|]. split; [|evaluate].
  apply (never_oversold (world_after demo_ops) 0 t).
  - by_run.
  - evaluate.
Defined.

(** ** Waiting lists and tickets over a run *)

Lemma run_waiting_prefix ops w w' a t :
  Inv w → run ops w = Some w' → heap w !! a = Some t →
  ∃ t', heap w' !! a = Some t' ∧ waiting_list t `prefix_of` waiting_list t'.
Proof.
  intros Hr H. revert a t.
  apply (run_transitions
           (λ w w', ∀ a t, heap w !! a = Some t →
              ∃ t', heap w' !! a = Some t'
                    ∧ waiting_list t `prefix_of` waiting_list t'))
    with (ops := ops); [| | |done|done].
  - intros w0 a t Ha. by exists t.
  - intros w1 w2 w3 H12 H23 a t Ha.
    destruct (H12 _ _ Ha) as (t2 & Ha2 & P2).
    destruct (H23 _ _ Ha2) as (t3 & Ha3 & P3).
    exists t3. split; [done|]. by etrans.
  - intros w0 w1 I T a t Ha.
    destruct T as [|n nm s d c|a0 t0 Ha0|n a0 tr ps now _ Ha0 _ _
                   |n a0 tr ps now _ Ha0 _ _|q t0 Hq Hs0]; simpl.
    + by exists t.
    + exists t. split; [by apply lookup_app_l_Some|done].
    + by exists t.
    + destruct (decide (a0 = a)) as [->|Hne].
      * assert (tr = t) by congruence. subst tr. eexists.
        rewrite list_lookup_insert_eq by (by apply lookup_lt_Some in Ha).
        split; [done|]. simpl. done.
      * exists t. rewrite list_lookup_insert_ne by done. done.
    + destruct (decide (a0 = a)) as [->|Hne].
      * assert (tr = t) by congruence. subst tr. eexists.
        rewrite list_lookup_insert_eq by (by apply lookup_lt_Some in Ha).
        split; [done|]. simpl. by apply prefix_app_r.
      * exists t. rewrite list_lookup_insert_ne by done. done.
    + by exists t.
Qed.

(** X8.  Over any run from a reachable world a waiting list only grows at
    its end: what it held before is a prefix of what it holds after, so no
    entry ever leaves it or changes place. *)
Theorem waiting_lists_only_grow ops w w' a t :
  reachable w → run ops w = Some w' → heap w !! a = Some t →
  ∃ t', heap w' !! a = Some t' ∧ waiting_list t `prefix_of` waiting_list t'.
Proof.
  intros Hr. apply run_waiting_prefix. by apply reachable_Inv.
Qed.

Lemma waiting_lists_only_grow_witness :
  ∃ t', heap (world_after (cancel_waiting_ops
                             ++ [Cancel_ticket "1000001";
                                 Book_ticket "12028" [P "D" "33"] 2])) !! 0%nat
        = Some t'
        ∧ ["1000002"] `prefix_of` waiting_list t'.
Proof.
  apply (waiting_lists_only_grow
           [Cancel_ticket "1000002"; Cancel_ticket "1000001";
            Book_ticket "12028" [P "D" "33"] 2]
           (world_after demo_ops) _ 0
           (mkTrain "12028" "Shatabdi Express" "Bengaluru" "Chennai" 2 0 ["1000002"])).
  - by_run.
  - evaluate.
  - evaluate.
Defined.

Lemma run_tickets_persist ops w w' p t :
  Inv w → run ops w = Some w' → tickets w !! p = Some t →
  ∃ t', tickets w' !! p = Some t' ∧ same_booking t t'
        ∧ (status t' = status t ∨ status t' = Cancelled).
Proof.
  intros Hr H. revert p t.
  apply (run_transitions
           (λ w w', ∀ p t, tickets w !! p = Some t →
              ∃ t', tickets w' !! p = Some t' ∧ same_booking t t'
                    ∧ (status t' = status t ∨ status t' = Cancelled)))
    with (ops := ops); [| | |done|done].
  - intros w0 p t Hp. exists t. split; [done|]. split; [by repeat split|by left].
  - intros w1 w2 w3 H12 H23 p t Hp.
    destruct (H12 _ _ Hp) as (t2 & Hp2 & (?&?&?&?) & S2).
    destruct (H23 _ _ Hp2) as (t3 & Hp3 & (?&?&?&?) & S3).
    exists t3. split; [done|]. split; [repeat split; congruence|].
    destruct S2 as [S2|S2], S3 as [S3|S3]; (left; congruence) || (right; congruence).
  - intros w0 w1 I T p t Hp. pose proof (Inv_fresh w0 I) as Hfresh.
    assert (Hsame : ∀ m : gmap string Ticket, m !! p = Some t →
              ∃ t', m !! p = Some t' ∧ same_booking t t'
                    ∧ (status t' = status t ∨ status t' = Cancelled)).
    { intros m Hm. exists t. split; [done|]. split; [by repeat split|by left]. }
    destruct T as [|n nm s d c|a0 t0 Ha0|n a0 tr ps now _ Ha0 _ _
                   |n a0 tr ps now _ Ha0 _ _|q t0 Hq Hs0]; simpl.
    + by apply Hsame.
    + by apply Hsame.
    + by apply Hsame.
    + apply Hsame. rewrite lookup_insert_ne by congruence. done.
    + apply Hsame. rewrite lookup_insert_ne by congruence. done.
    + destruct (decide (q = p)) as [->|Hne].
      * assert (t0 = t) by congruence. subst t0.
        exists (set_status Cancelled t). rewrite lookup_insert_eq.
        split; [done|]. split; [by repeat split|by right].
      * apply Hsame. rewrite lookup_insert_ne by done. done.
Qed.

(** X9.  Over any run from a reachable world a stored ticket stays stored
    under its PNR with the same PNR, train, passengers and booking date;
    its status is the one it had or Cancelled.  In particular no Waiting
    ticket ever becomes Confirmed. *)
Theorem tickets_persist ops w w' p t :
  reachable w → run ops w = Some w' → tickets w !! p = Some t →
  ∃ t', tickets w' !! p = Some t' ∧ same_booking t t'
        ∧ (status t' = status t ∨ status t' = Cancelled).
Proof.
  intros Hr. apply run_tickets_persist. by apply reachable_Inv.
Qed.

Lemma tickets_persist_witness :
  ∃ t', tickets (world_after (cancel_waiting_ops ++ [Cancel_ticket "1000001"]))
          !! "1000002" = Some t'
        ∧ passengers t' = [P "C" "32"]
        ∧ (status t' = Waiting ∨ status t' = Cancelled).
Proof.
  destruct (tickets_persist [Cancel_ticket "1000002"; Cancel_ticket "1000001"]
              (world_after demo_ops)
              (world_after (cancel_waiting_ops ++ [Cancel_ticket "1000001"]))
              "1000002" (mkTicket "1000002" 0 [P "C" "32"] Waiting 1))
    as (t' & Hp & (_ & _ & Hps & _) & Hs).
  - by_run.
  - evaluate.
  - evaluate.
  - exists t'. split; [exact Hp|]. split; [exact Hps|exact Hs].
Defined.

(** X10.  In a process started with the counter at [c], the PNRs in use
    are exactly the decimal strings of the numbers above [c] up to the
    current counter: each accepted booking takes the next number, and
    nothing else takes or frees one.  The number of tickets is the
    distance the counter has moved. *)
Theorem pnrs_are_consecutive c ops w :
  run ops (ReservationSystem_init c) = Some w →
  (∀ k, is_Some (tickets w !! str k) ↔ c < k <= pnr_counter w)
  ∧ (∀ p, is_Some (tickets w !! p) → ∃ k, p = str k)
  ∧ Z.of_nat (size (tickets w)) = pnr_counter w - c.
Proof.
  intros H. pose proof (run_Inv ops _ w (Inv_init c) H) as Iw.
  split; [|split].
  3:{ revert H. apply (run_invariant
        (λ w, Z.of_nat (size (tickets w)) = pnr_counter w - c));
        [|apply Inv_init|simpl; rewrite map_size_empty; lia].
      intros w0 w1 I T Q. pose proof (Inv_fresh w0 I) as Hfresh.
      destruct T as [|n nm s d c0|a0 t0 Ha0|n a0 tr ps now _ Ha0 _ _
                     |n a0 tr ps now _ Ha0 _ _|q t0 Hq Hs0]; simpl; try done.
      - rewrite map_size_insert_None by done. lia.
      - rewrite map_size_insert_None by done. lia.
      - rewrite map_size_insert_Some by done. done. }
  2:{ intros p [t Hp]. destruct (inv_keys w Iw _ _ Hp) as [_ (k & -> & _)]. eauto. }
  apply (proj2 (A := c <= pnr_counter w)).
  revert H. apply (run_invariant
    (λ w, c <= pnr_counter w
          ∧ ∀ k, is_Some (tickets w !! str k) ↔ c < k <= pnr_counter w));
    [|apply Inv_init|].
  - intros w0 w1 I T [Hc Q]. pose proof (Inv_fresh w0 I) as Hfresh.
    assert (Hbook : ∀ tk k,
              is_Some (<[str (pnr_counter w0 + 1) := tk]> (tickets w0) !! str k)
              ↔ c < k <= pnr_counter w0 + 1).
    { intros tk k. destruct (decide (k = pnr_counter w0 + 1)) as [->|Hne].
      - rewrite lookup_insert_eq. split; [lia|eauto].
      - rewrite lookup_insert_ne by (intros E; by apply str_inj in E).
        rewrite Q. lia. }
    destruct T as [|n nm s d c0|a0 t0 Ha0|n a0 tr ps now _ Ha0 _ _
                   |n a0 tr ps now _ Ha0 _ _|q t0 Hq Hs0]; simpl; try done.
    + split; [lia|]. apply Hbook.
    + split; [lia|]. apply Hbook.
    + split; [done|]. intros k. rewrite <- Q.
      destruct (decide (q = str k)) as [->|Hne].
      * rewrite lookup_insert_eq, Hq. split; eauto.
      * rewrite lookup_insert_ne by done. done.
  - simpl. split; [lia|]. intros k. rewrite lookup_empty. split; [by intros [? ?]|lia].
Qed.

Lemma pnrs_are_consecutive_witness :
  is_Some (tickets (world_after demo_ops) !! str 1000002)
  ∧ ¬ is_Some (tickets (world_after demo_ops) !! str 1000003)
  ∧ size (tickets (world_after demo_ops)) = 2%nat.
Proof.
  destruct (pnrs_are_consecutive 1000000 demo_ops (world_after demo_ops))
    as (Hk & _ & Hsize).
  - evaluate.
  - change (pnr_counter (world_after demo_ops)) with 1000002 in *.
    split; [apply Hk; lia|]. split; [rewrite Hk; lia|lia].
Defined.

(** X11.  In a reachable world every waiting list is in the order of
    booking: read as numbers, its PNRs grow strictly from the front to the
    back. *)
Theorem waiting_lists_in_booking_order w a t :
  reachable w → heap w !! a = Some t → pnr_increasing (waiting_list t).
Proof.
  intros Hr. revert a t.
  apply (reachable_invariant
           (λ w, ∀ a t, heap w !! a = Some t → pnr_increasing (waiting_list t)));
    [| |exact Hr].
  - intros c a t H. simpl in H. inversion H.
  - intros w0 w' I T Q a t Ha.
    destruct T as [|n nm s d c|a0 t0 Ha0|n a0 tr ps now _ Ha0 _ _
                   |n a0 tr ps now _ Ha0 _ _|q t0 Hq Hs0]; simpl in Ha.
    + exact (Q _ _ Ha).
    + apply lookup_app_Some in Ha as [Ha|[_ Ha]]; [exact (Q _ _ Ha)|].
      apply list_lookup_singleton_Some in Ha as [_ <-]. simpl.
      intros i j p q _ Hi. inversion Hi.
    + exact (Q _ _ Ha).
    + destruct (decide (a0 = a)) as [->|Hne].
      * rewrite list_lookup_insert_eq in Ha by (by apply lookup_lt_Some in Ha0).
        injection Ha as <-. simpl. exact (Q _ _ Ha0).
      * rewrite list_lookup_insert_ne in Ha by done. exact (Q _ _ Ha).
    + destruct (decide (a0 = a)) as [->|Hne].
      * rewrite list_lookup_insert_eq in Ha by (by apply lookup_lt_Some in Ha0).
        injection Ha as <-. simpl. intros i j p q Hij Hi Hj.
        apply lookup_snoc_Some in Hj as [[Hlt Hj]|[Hjl <-]].
        -- rewrite lookup_app_l in Hi by lia. exact (Q _ _ Ha0 i j p q Hij Hi Hj).
        -- rewrite lookup_app_l in Hi by lia.
           destruct (inv_wl w0 I _ _ p Ha0) as (tp & Hp & _).
           { apply list_elem_of_lookup. eauto. }
           destruct (inv_keys w0 I _ _ Hp) as [_ (k & -> & Hk)].
           exists k, (pnr_counter w0 + 1). rewrite !int_str.
           split; [done|]. split; [done|lia].
      * rewrite list_lookup_insert_ne in Ha by done. exact (Q _ _ Ha).
    + exact (Q _ _ Ha).
Qed.

Lemma waiting_lists_in_booking_order_witness :
  ∃ k1 k2, int "1000002" = Some k1 ∧ int "1000003" = Some k2 ∧ k1 < k2.
Proof.
  apply (waiting_lists_in_booking_order
           (world_after (demo_ops ++ [Book_ticket "12028" [P "D" "33"] 2])) 0
           (mkTrain "12028" "Shatabdi Express" "Bengaluru" "Chennai" 2 0
                    ["1000002"; "1000003"])
           ltac:(by_run) ltac:(evaluate) 0%nat 1%nat).
  - lia.
  - reflexivity.
  - reflexivity.
Defined.

(** X12.  In a reachable world every entry of the directory refers to a
    train object whose own number is the key of the entry. *)
Theorem directory_keys_are_train_numbers w n a :
  reachable w → trains w !! n = Some a →
  ∃ t, heap w !! a = Some t ∧ train_no t = n.
Proof.
  intros Hr. revert n a.
  apply (reachable_invariant
           (λ w, ∀ n a, trains w !! n = Some a →
                   ∃ t, heap w !! a = Some t ∧ train_no t = n));
    [| |exact Hr].
  - intros c n a H. simpl in H. by rewrite lookup_empty in H.
  - intros w0 w' I T Q n a Hn.
    assert (Hins : ∀ a0 tr tr', heap w0 !! a0 = Some tr →
              train_no tr' = train_no tr → trains w0 !! n = Some a →
              ∃ t, <[a0 := tr']> (heap w0) !! a = Some t ∧ train_no t = n).
    { intros a0 tr tr' Ha0 Hno Hn0. destruct (Q _ _ Hn0) as (t & Ha & Ht).
      destruct (decide (a0 = a)) as [->|Hne].
      - exists tr'. rewrite list_lookup_insert_eq by (by apply lookup_lt_Some in Ha).
        split; [done|]. congruence.
      - exists t. rewrite list_lookup_insert_ne by done. done. }
    destruct T as [|m nm s d c|a0 t0 Ha0|m a0 tr ps now _ Ha0 _ _
                   |m a0 tr ps now _ Ha0 _ _|q t0 Hq Hs0]; simpl in *.
    + exact (Q _ _ Hn).
    + destruct (Q _ _ Hn) as (t & Ha & Ht). exists t.
      split; [by apply lookup_app_l_Some|done].
    + apply lookup_insert_Some in Hn as [[<- <-]|[_ Hn]]; [eauto|exact (Q _ _ Hn)].
    + by apply (Hins a0 tr).
    + by apply (Hins a0 tr).
    + exact (Q _ _ Hn).
Qed.

Lemma directory_keys_are_train_numbers_witness :
  ∃ t, heap (world_after duplicate_ops) !! 0%nat = Some t ∧ train_no t = "12028".
Proof.
  apply (directory_keys_are_train_numbers (world_after duplicate_ops) "12028" 0).
  - by_run.
  - evaluate.
Defined.

Lemma index_first p l i :
  index p l = Some i →
  0 <= i < len l ∧ l !! Z.to_nat i = Some p
  ∧ ∀ j, (j < Z.to_nat i)%nat → l !! j ≠ Some p.
Proof.
  revert i. induction l as [|y l IH]; intros i H; [discriminate|].
  simpl in H. destruct (decide (y = p)) as [->|Hne].
  - injection H as <-. unfold len. simpl. split; [lia|]. split; [done|]. lia.
  - destruct (index p l) as [k|]; [|discriminate]. injection H as <-.
    destruct (IH k eq_refl) as (Hk & Hl & Hfirst). unfold len in *. simpl.
    split; [lia|]. rewrite Z2Nat.inj_succ by lia. split; [done|].
    intros [|j] Hj; simpl; [congruence|]. apply Hfirst. lia.
Qed.

(** X13.  Whenever [check_pnr_status] reports a position for a PNR, the
    ticket is Waiting, the position is between 1 and the length of the
    waiting list of its train, the entry at that position is the PNR and
    no earlier entry is; the world is the one of the call. *)
Theorem reported_position_is_the_place p w w' t position :
  check_pnr_status p w = Returned w' (PNR_status t (Some position)) →
  w' = w ∧ tickets w !! p = Some t ∧ status t = Waiting
  ∧ ∃ tr, heap w !! train t = Some tr
          ∧ 1 <= position <= len (waiting_list tr)
          ∧ waiting_list tr !! Z.to_nat (position - 1) = Some p
          ∧ ∀ j, (j < Z.to_nat (position - 1))%nat → waiting_list tr !! j ≠ Some p.
Proof.
  unfold check_pnr_status. intros H.
  destruct (tickets w !! p) as [tk|]; [|discriminate].
  destruct (status tk) eqn:Hs; try discriminate.
  destruct (heap w !! train tk) as [tr|] eqn:Ha; [|discriminate].
  destruct (index p (waiting_list tr)) as [i|] eqn:Hi; [|discriminate].
  injection H as <- <- <-. rewrite Ha.
  destruct (index_first _ _ _ Hi) as (Hb & Hl & Hfirst).
  split; [done|]. split; [done|]. split; [done|]. exists tr.
  replace (i + 1 - 1) with i by lia.
  split; [done|]. split; [lia|]. split; [done|]. exact Hfirst.
Qed.

Lemma reported_position_is_the_place_witness :
  ∃ tr, heap (world_after demo_ops) !! 0%nat = Some tr
        ∧ waiting_list tr !! 0%nat = Some "1000002".
Proof.
  destruct (reported_position_is_the_place "1000002" (world_after demo_ops)
              (world_after demo_ops)
              (mkTicket "1000002" 0 [P "C" "32"] Waiting 1) 1)
    as (_ & _ & _ & tr & Ha & _ & Hl & _).
  - evaluate.
  - exists tr. split; [exact Ha|exact Hl].
Defined.

(** ** Adding a train and booking on it *)

(** X14.  From any world, after a train has been constructed and added
    under a number, whether or not that number was bound before, a booking
    for that number is made on the new train: it is Confirmed exactly
    when the passengers are no more than its total seats, and every train
    constructed earlier is left as it was. *)
Theorem booking_goes_to_the_train_added_last w n nm s d c ps now :
  ps ≠ [] →
  ∃ w1 w2 out tk,
    run [New_train n nm s d c; Add_train (length (heap w))] w = Some w1
    ∧ book_ticket n ps now w1 = Returned w2 out
    ∧ created (book_ticket n ps now w1) = Some tk
    ∧ train tk = length (heap w)
    ∧ (status tk = Confirmed ↔ len ps <= c)
    ∧ (status tk = Waiting ↔ c < len ps)
    ∧ ∀ b, (b < length (heap w))%nat → heap w2 !! b = heap w !! b.
Proof.
  intros Hps. set (a := length (heap w)). set (T := Train_init n nm s d c).
  set (w1 := with_trains (<[n := a]> (trains w)) (with_heap (heap w ++ [T]) w)).
  assert (HT : (heap w ++ [T]) !! a = Some T).
  { rewrite lookup_app_r by (unfold a; lia). by rewrite Nat.sub_diag. }
  assert (R : run [New_train n nm s d c; Add_train a] w = Some w1).
  { simpl. unfold add_train. simpl. fold T. rewrite HT. reflexivity. }
  assert (Hn : trains w1 !! n = Some a) by (simpl; apply lookup_insert_eq).
  assert (Ha : heap w1 !! a = Some T) by exact HT.
  assert (Hold : ∀ (x : Train) b, (b < a)%nat →
            <[a := x]> (heap w ++ [T]) !! b = heap w !! b).
  { intros x b Hb. rewrite list_lookup_insert_ne by lia. by apply lookup_app_l. }
  exists w1. destruct (Z.le_gt_cases (len ps) c) as [Hle|Hgt].
  - rewrite (book_ticket_confirmed n ps now w1 a T Hn Ha Hps Hle).
    eexists _, _, _. split; [exact R|]. split; [reflexivity|]. simpl.
    split; [reflexivity|]. split; [reflexivity|].
    split; [done|]. split; [split; [discriminate|lia]|]. apply Hold.
  - rewrite (book_ticket_waiting n ps now w1 a T Hn Ha Hps Hgt).
    eexists _, _, _. split; [exact R|]. split; [reflexivity|]. simpl.
    split; [reflexivity|]. split; [reflexivity|].
    split; [split; [discriminate|lia]|]. split; [done|]. apply Hold.
Qed.

Lemma booking_goes_to_the_train_added_last_witness :
  ∃ w1 w2 out tk,
    run [New_train "12028" "Night Mail" "Mysuru" "Hubballi" 10; Add_train 1]
        (world_after demo_ops) = Some w1
    ∧ book_ticket "12028" [P "D" "33"] 2 w1 = Returned w2 out
    ∧ created (book_ticket "12028" [P "D" "33"] 2 w1) = Some tk
    ∧ train tk = 1%nat ∧ status tk = Confirmed
    ∧ heap w2 !! 0%nat = heap (world_after demo_ops) !! 0%nat.
Proof.
  destruct (booking_goes_to_the_train_added_last (world_after demo_ops)
              "12028" "Night Mail" "Mysuru" "Hubballi" 10 [P "D" "33"] 2)
    as (w1 & w2 & out & tk & R & E & C & Htr & Hc & _ & Hold).
  - discriminate.
  - exists w1, w2, out, tk. split; [exact R|]. split; [exact E|].
    split; [exact C|]. split; [exact Htr|].
    split; [apply Hc; vm_compute; discriminate|]. apply Hold. vm_compute. lia.
Defined.

(** ** Listing the trains of a route *)

Section Display_properties.

Variables lower upper : string → string.





End Display_properties.


(** ** The position of a waiting ticket *)

Lemma index_app_l p l k i : index p l = Some i → index p (l ++ k) = Some i.
Proof.
  revert i. induction l as [|y l IH]; intros i H; [discriminate|].
  simpl in *. destruct (decide (y = p)); [done|].
  destruct (index p l) as [j|]; [|discriminate]. by rewrite (IH j eq_refl).
Qed.

(** X16.  In a run from a reachable world, a ticket for which
    [check_pnr_status] has reported a position is reported at the same
    position for as long as it is Waiting: cancellations of tickets ahead
    of it do not move it up. *)
Theorem waiting_position_never_changes ops w w' p t position :
  reachable w → run ops w = Some w' →
  check_pnr_status p w = Returned w (PNR_status t (Some position)) →
  ∃ t', tickets w' !! p = Some t'
        ∧ (status t' = Waiting ∨ status t' = Cancelled)
        ∧ (status t' = Waiting →
             check_pnr_status p w' = Returned w' (PNR_status t' (Some position))).
Proof.
  intros Hr R H. pose proof (reachable_Inv w Hr) as I.
  unfold check_pnr_status in H.
  destruct (tickets w !! p) as [tk|] eqn:Hp; [|discriminate].
  destruct (status tk) eqn:Hs; try discriminate.
  destruct (heap w !! train tk) as [tr|] eqn:Ha; [|discriminate].
  destruct (index p (waiting_list tr)) as [i|] eqn:Hi; [|discriminate].
  injection H as <- <-.
  destruct (run_tickets_persist ops w w' p tk I R Hp) as (t' & Hp' & (_&Htr&_&_) & Hs').
  destruct (run_waiting_prefix ops w w' _ tr I R Ha) as (tr' & Ha' & [k Hk]).
  exists t'. split; [done|]. split; [rewrite Hs in Hs'; tauto|].
  intros Hw. unfold check_pnr_status. rewrite Hp', Hw, Htr, Ha', Hk.
  rewrite (index_app_l p _ k i Hi). reflexivity.
Qed.

Lemma waiting_position_never_changes_witness :
  ∃ t', tickets (world_after (demo_ops ++ [Book_ticket "12028" [P "D" "33"] 2;
                                           Cancel_ticket "1000002"])) !! "1000003"
        = Some t'
        ∧ check_pnr_status "1000003"
            (world_after (demo_ops ++ [Book_ticket "12028" [P "D" "33"] 2;
                                       Cancel_ticket "1000002"]))
          = Returned (world_after (demo_ops ++ [Book_ticket "12028" [P "D" "33"] 2;
                                                Cancel_ticket "1000002"]))
                     (PNR_status t' (Some 2)).
Proof.
  destruct (waiting_position_never_changes [Cancel_ticket "1000002"]
              (world_after (demo_ops ++ [Book_ticket "12028" [P "D" "33"] 2]))
              (world_after (demo_ops ++ [Book_ticket "12028" [P "D" "33"] 2;
                                         Cancel_ticket "1000002"]))
              "1000003" (mkTicket "1000003" 0 [P "D" "33"] Waiting 2) 2)
    as (t' & Hp & _ & Hw).
  - by_run.
  - evaluate.
  - evaluate.
  - exists t'. split; [exact Hp|]. apply Hw.
    assert (E : status <$> tickets (world_after (demo_ops
                  ++ [Book_ticket "12028" [P "D" "33"] 2; Cancel_ticket "1000002"]))
                  !! "1000003" = Some Waiting) by evaluate.
    rewrite Hp in E. by injection E.
Defined.

(** ** Where the seats are *)

Lemma entries_sum_list_perm (g : string * Ticket → Z) l1 l2 :
  l1 ≡ₚ l2 →
  foldr (λ kt acc, g kt + acc) 0 l1 = foldr (λ kt acc, g kt + acc) 0 l2.
Proof.
  induction 1 as [|x l1 l2 _ IH|x y l|l1 l2 l3 _ IH1 _ IH2]; simpl;
    [done|by rewrite IH|lia|congruence].
Qed.

Lemma entries_sum_insert_fresh g k t (m : gmap string Ticket) :
  m !! k = None → entries_sum g (<[k := t]> m) = g (k, t) + entries_sum g m.
Proof.
  intros H. unfold entries_sum.
  rewrite (entries_sum_list_perm g _ _ (map_to_list_insert m k t H)). reflexivity.
Qed.

Lemma entries_sum_update g k t t' (m : gmap string Ticket) :
  m !! k = Some t →
  entries_sum g (<[k := t']> m) = entries_sum g m - g (k, t) + g (k, t').
Proof.
  intros H. rewrite <- (insert_delete_eq m k t').
  rewrite <- (insert_delete_id m k t H) at 2.
  rewrite !entries_sum_insert_fresh by apply lookup_delete_eq. lia.
Qed.

Lemma entries_sum_ext g g' (m : gmap string Ticket) :
  (∀ k t, m !! k = Some t → g (k, t) = g' (k, t)) →
  entries_sum g m = entries_sum g' m.
Proof.
  intros H. unfold entries_sum.
  assert (F : ∀ kt, kt ∈ map_to_list m → g kt = g' kt).
  { intros [k t] Hin. apply elem_of_map_to_list in Hin. by apply H. }
  induction (map_to_list m) as [|kt l IH]; [done|]. simpl.
  rewrite IH by (intros kt' Hin; apply F; by right).
  rewrite (F kt) by left. done.
Qed.

Lemma entries_sum_zero g (m : gmap string Ticket) :
  (∀ k t, m !! k = Some t → g (k, t) = 0) → entries_sum g m = 0.
Proof.
  intros H. rewrite (entries_sum_ext g (λ _, 0)) by done.
  unfold entries_sum. induction (map_to_list m); simpl; lia.
Qed.

(** X17.  In a reachable world every seat of a train is accounted for:
    its available seats plus the seats of all tickets booked on it whose
    PNR is not in its waiting list, Cancelled ones included, make up its
    total seats. *)
Theorem seats_ledger w a t :
  reachable w → heap w !! a = Some t →
  available_seats t + entries_sum (seats_taken a (waiting_list t)) (tickets w)
  = total_seats t.
Proof.
  intros Hr. revert a t.
  apply (reachable_invariant
           (λ w, ∀ a t, heap w !! a = Some t →
              available_seats t
              + entries_sum (seats_taken a (waiting_list t)) (tickets w)
              = total_seats t));
    [| |exact Hr].
  - intros c a t H. simpl in H. inversion H.
  - intros w0 w' I T Q a t Ha. pose proof (Inv_fresh w0 I) as Hfresh.
    destruct T as [|n nm s d c|a0 t0 Ha0|n a0 tr ps now _ Ha0 _ Hle
                   |n a0 tr ps now _ Ha0 _ _|q t0 Hq Hs0]; simpl in *.
    + exact (Q _ _ Ha).
    + apply lookup_app_Some in Ha as [Ha|[Hlen Ha]]; [exact (Q _ _ Ha)|].
      apply list_lookup_singleton_Some in Ha as [Hz <-]. simpl.
      rewrite entries_sum_zero; [lia|].
      intros k tk Hk. unfold seats_taken. simpl.
      rewrite bool_decide_eq_false_2; [done|].
      intros [E _]. pose proof (inv_ticket_train w0 I _ _ Hk). lia.
    + exact (Q _ _ Ha).
    + rewrite entries_sum_insert_fresh by done. unfold seats_taken at 1. simpl.
      destruct (decide (a0 = a)) as [->|Hne].
      * rewrite list_lookup_insert_eq in Ha by (by apply lookup_lt_Some in Ha0).
        injection Ha as <-. simpl.
        rewrite bool_decide_eq_true_2
          by (split; [done|exact (Inv_wl_not_fresh w0 a tr I Ha0)]).
        pose proof (Q _ _ Ha0). lia.
      * rewrite list_lookup_insert_ne in Ha by done.
        rewrite bool_decide_eq_false_2 by (intros [? _]; done).
        pose proof (Q _ _ Ha). lia.
    + rewrite entries_sum_insert_fresh by done. unfold seats_taken at 1. simpl.
      destruct (decide (a0 = a)) as [->|Hne].
      * rewrite list_lookup_insert_eq in Ha by (by apply lookup_lt_Some in Ha0).
        injection Ha as <-. simpl.
        rewrite bool_decide_eq_false_2
          by (intros [_ Hn]; apply Hn, elem_of_app; right; by left).
        rewrite (entries_sum_ext _ (seats_taken a (waiting_list tr))).
        { pose proof (Q _ _ Ha0). lia. }
        intros k tk Hk. unfold seats_taken. simpl.
        assert (Hk' : k ≠ str (pnr_counter w0 + 1)) by congruence.
        rewrite (bool_decide_ext
                   (train tk = a ∧ k ∉ waiting_list tr ++ [str (pnr_counter w0 + 1)])
                   (train tk = a ∧ k ∉ waiting_list tr)); [done|].
        rewrite elem_of_app, list_elem_of_singleton. tauto.
      * rewrite list_lookup_insert_ne in Ha by done.
        rewrite bool_decide_eq_false_2 by (intros [? _]; done).
        pose proof (Q _ _ Ha). lia.
    + rewrite (entries_sum_update _ q t0) by done.
      unfold seats_taken at 2 3. simpl. pose proof (Q _ _ Ha). lia.
Qed.

Lemma seats_ledger_witness :
  ∃ t, heap (world_after cancel_confirmed_ops) !! 0%nat = Some t
       ∧ available_seats t = 0 ∧ total_seats t = 2
       ∧ entries_sum (seats_taken 0 (waiting_list t))
                     (tickets (world_after cancel_confirmed_ops)) = 2.
Proof.
  pose (t := mkTrain "12028" "Shatabdi Express" "Bengaluru" "Chennai" 2 0 []).
  exists t. split; [evaluate|]. split; [reflexivity|]. split; [reflexivity|].
  pose proof (seats_ledger (world_after cancel_confirmed_ops) 0 t
                ltac:(by_run) ltac:(evaluate)) as H.
  simpl in H. exact H.
Defined.
